(** * rpi-mfrc522: the MFRC522 driver of [lib/index.js], embedded in Rocq

    The driver talks to the reader chip through two-byte SPI transfers and
    timed waits.  The chip is an arbitrary state machine ([dev], with
    [spi_transfer] and [elapse]); every driver method becomes a computation
    in a small monad that threads the chip state, may throw a transport
    error, and records the register accesses it performed. *)

From Stdlib Require Import ZArith List Bool Lia.
From Stdlib Require Ascii String HexadecimalString.
Import ListNotations.
Open Scope Z_scope.

(** ** The fragment of JavaScript the driver's conditions are written in *)

Module JS.

(** ToInt32: wrap to a signed 32-bit integer. *)
Definition int32 (z : Z) : Z := (z + 2 ^ 31) mod 2 ^ 32 - 2 ^ 31.

(** ToUint8, as applied by [Buffer.from] to each array element. *)
Definition uint8 (z : Z) : Z := z mod 256.

(** Values that occur in the driver's conditions: array reads out of range
    give [Undefined], comparisons give [Bool], the rest are integers. *)
Inductive value : Type :=
| Undefined
| Bool (b : bool)
| Num (z : Z).

Definition truthy (v : value) : bool :=
  match v with
  | Undefined => false
  | Bool b => b
  | Num z => negb (z =? 0)
  end.

Definition to_int32 (v : value) : Z :=
  match v with
  | Undefined => 0
  | Bool true => 1
  | Bool false => 0
  | Num z => int32 z
  end.

Definition strict_eq (a b : value) : bool :=
  match a, b with
  | Undefined, Undefined => true
  | Bool x, Bool y => Bool.eqb x y
  | Num x, Num y => x =? y
  | _, _ => false
  end.

(** [a & b], [~a], [a && b], [!a], [a !== b]. *)
Definition band (a b : value) : value := Num (Z.land (to_int32 a) (to_int32 b)).
Definition bnot (a : value) : value := Num (Z.lnot (to_int32 a)).
Definition and (a b : value) : value := if truthy a then b else a.
Definition not (a : value) : value := Bool (negb (truthy a)).
Definition strict_neq (a b : value) : value := Bool (negb (strict_eq a b)).

(** [arr[i]] on an array of numbers. *)
Definition index (arr : list Z) (i : nat) : value :=
  match nth_error arr i with
  | Some z => Num z
  | None => Undefined
  end.

(** The bitwise operators on numbers. *)
Definition land (a b : Z) : Z := Z.land (int32 a) (int32 b).
Definition lor (a b : Z) : Z := Z.lor (int32 a) (int32 b).
Definition lxor (a b : Z) : Z := Z.lxor (int32 a) (int32 b).
Definition lnot (a : Z) : Z := Z.lnot (int32 a).
Definition shl (a k : Z) : Z := int32 (Z.shiftl (int32 a) k).

End JS.

(** ** Register addresses, chip commands, card commands, status codes *)

Definition MAX_LEN : Z := 16.

Definition COMMAND_REGISTER : Z := 0x01.
Definition COMMIEN_REGISTER : Z := 0x02.
Definition COMMIRQ_REGISTER : Z := 0x04.
Definition DIVIRQ_REGISTER : Z := 0x05.
Definition ERROR_REGISTER : Z := 0x06.
Definition STATUS2_REGISTER : Z := 0x08.
Definition FIFODATA_REGISTER : Z := 0x09.
Definition FIFOLEVEL_REGISTER : Z := 0x0A.
Definition CONTROL_REGISTER : Z := 0x0C.
Definition BITFRAMING_REGISTER : Z := 0x0D.
Definition CRCRESULTM_REGISTER : Z := 0x21.
Definition CRCRESULTL_REGISTER : Z := 0x22.

Definition PCD_IDLE : Z := 0x00.
Definition PCD_CALCCRC : Z := 0x03.
Definition PCD_TRANSCEIVE : Z := 0x0C.
Definition PCD_AUTHENTICATE : Z := 0x0E.
Definition PCD_RESET : Z := 0x0F.

Definition PICC_REQIDL : Z := 0x26.
Definition PICC_ANTICOLL : Z := 0x93.
Definition PICC_AUTHENT1A : Z := 0x60.
Definition PICC_READ : Z := 0x30.
Definition PICC_WRITE : Z := 0xA0.

Definition MI_OK : Z := 0.
Definition MI_NOTAGERR : Z := 1.
Definition MI_ERR : Z := 2.

(** ** Effects: chip state, transport errors, access log *)

(** What the driver did to the outside world, in order.  [EvWrite r v]: a
    completed [writeSPI(r, v)] ([v] as the byte put on the bus); [EvRead r v]:
    a completed [readSPI(r)] that resolved to [v]; [EvWait ms]: a completed
    [wait(ms)]. *)
Inductive event : Type :=
| EvWrite (register value : Z)
| EvRead (register value : Z)
| EvWait (ms : Z).

(** How an asynchronous method ends: its promise resolves, it rejects with the
    transport's error, or (in the model only) a loop used up its fuel. *)
Inductive outcome (E A : Type) : Type :=
| Ok (a : A)
| Throw (e : E)
| OutOfFuel.
Arguments Ok {E A} a.
Arguments Throw {E A} e.
Arguments OutOfFuel {E A}.

Definition M (D E A : Type) : Type := D -> outcome E A * D * list event.

Definition ret {D E A} (a : A) : M D E A := fun d => (Ok a, d, []).

Definition bind {D E A B} (m : M D E A) (f : A -> M D E B) : M D E B :=
  fun d =>
    match m d with
    | (Ok a, d1, t1) => let '(r, d2, t2) := f a d1 in (r, d2, t1 ++ t2)
    | (Throw e, d1, t1) => (Throw e, d1, t1)
    | (OutOfFuel, d1, t1) => (OutOfFuel, d1, t1)
    end.

Definition out_of_fuel {D E A} : M D E A := fun d => (OutOfFuel, d, []).

Declare Scope drv_scope.
Delimit Scope drv_scope with drv.
Notation "x <- m ;; k" := (bind m (fun x => k))
  (at level 100, m at next level, right associativity) : drv_scope.
Notation "m ;; k" := (bind m (fun _ => k))
  (at level 100, right associativity) : drv_scope.
Notation "' pat <- m ;; k" := (bind m (fun x => match x with pat => k end))
  (at level 100, pat pattern, m at next level, right associativity) : drv_scope.
Open Scope drv_scope.

(** The values read from register [r], in order. *)
Fixpoint reads_of (r : Z) (t : list event) : list Z :=
  match t with
  | [] => []
  | EvRead r' v :: t' => if r' =? r then v :: reads_of r t' else reads_of r t'
  | _ :: t' => reads_of r t'
  end.

(** The values written to register [r], in order. *)
Fixpoint writes_of (r : Z) (t : list event) : list Z :=
  match t with
  | [] => []
  | EvWrite r' v :: t' => if r' =? r then v :: writes_of r t' else writes_of r t'
  | _ :: t' => writes_of r t'
  end.

(** The result object of [toCard]. *)
Record result : Type := mkResult {
  status : Z;
  backData : list Z;
  backLen : Z
}.

(** ** The driver *)

Section Driver.

(** The chip and its bus: [spi_transfer (b0, b1) d] performs one two-byte
    transfer (send buffer [b0; b1]) and either fails with the transport's
    error or yields the two bytes of the receive buffer; [elapse ms d] is the
    chip after [ms] milliseconds without bus traffic. *)
Variable dev : Type.
Variable err : Type.
Variable spi_transfer : Z * Z -> dev -> (err + Z * Z) * dev.
Variable elapse : Z -> dev -> dev.

Local Abbreviation Drv := (M dev err).

(** [_writeSPI]: send [(register << 1) & 0x7E] and the value. *)
Definition writeSPI (register value : Z) : Drv unit :=
  fun d =>
    let tx := (JS.uint8 (JS.land (JS.shl register 1) 0x7E), JS.uint8 value) in
    match spi_transfer tx d with
    | (inl e, d') => (Throw e, d', [])
    | (inr _, d') => (Ok tt, d', [EvWrite register (JS.uint8 value)])
    end.

(** [_readSPI]: send [((register << 1) & 0x7E) | 0x80] and 0, resolve to the
    second byte of the receive buffer (a [Buffer], so a byte). *)
Definition readSPI (register : Z) : Drv Z :=
  fun d =>
    let tx := (JS.uint8 (JS.lor (JS.land (JS.shl register 1) 0x7E) 0x80), JS.uint8 0) in
    match spi_transfer tx d with
    | (inl e, d') => (Throw e, d', [])
    | (inr rx, d') =>
        let v := JS.uint8 (snd rx) in (Ok v, d', [EvRead register v])
    end.

(** [_wait]: a timer, during which the chip runs on. *)
Definition wait (ms : Z) : Drv unit :=
  fun d => (Ok tt, elapse ms d, [EvWait ms]).

Definition setBitMask (register mask : Z) : Drv unit :=
  temp <- readSPI register ;;
  writeSPI register (JS.lor temp mask).

Definition clearBitMask (register mask : Z) : Drv unit :=
  temp <- readSPI register ;;
  writeSPI register (JS.land temp (JS.lnot mask)).

(** [uid.reduce((c, b, i) => (i < 4 ? c ^ b : c), 0)] *)
Fixpoint uidChecksum_from (i : nat) (c : Z) (uid : list Z) : Z :=
  match uid with
  | [] => c
  | b :: rest =>
      uidChecksum_from (S i) (if (i <? 4)%nat then JS.lxor c b else c) rest
  end.

Definition uidChecksum (uid : list Z) : Z := uidChecksum_from 0 0 uid.

Definition idlePCD : Drv unit := writeSPI COMMAND_REGISTER PCD_IDLE.

(** [for (bi = 0; bi < buf.length; bi++) writeSPI(FIFODATA_REGISTER, buf[bi])],
    and the same loop written with [while] in [_toCard]. *)
Fixpoint fifo_fill (data : list Z) : Drv unit :=
  match data with
  | [] => ret tt
  | b :: rest => writeSPI FIFODATA_REGISTER b ;; fifo_fill rest
  end.

(** The loop condition of [_calculateCRC]: [attempts && !(n & 0x04)]. *)
Definition crc_again (attempts n : Z) : bool :=
  JS.truthy (JS.and (JS.Num attempts) (JS.not (JS.band (JS.Num n) (JS.Num 0x04)))).

(** [do { wait(5); n = readSPI(DIVIRQ); attempts -= 1 } while (...)] *)
Fixpoint crc_poll (fuel : nat) (attempts : Z) : Drv unit :=
  match fuel with
  | O => out_of_fuel
  | S fuel' =>
      wait 5 ;;
      n <- readSPI DIVIRQ_REGISTER ;;
      let attempts := attempts - 1 in
      if crc_again attempts n then crc_poll fuel' attempts else ret tt
  end.

Definition calculateCRC (buf : list Z) : Drv (list Z) :=
  clearBitMask DIVIRQ_REGISTER 0x04 ;;
  setBitMask FIFOLEVEL_REGISTER 0x80 ;;
  idlePCD ;;
  fifo_fill buf ;;
  writeSPI COMMAND_REGISTER PCD_CALCCRC ;;
  crc_poll 255 0xFF ;;
  lo <- readSPI CRCRESULTL_REGISTER ;;
  hi <- readSPI CRCRESULTM_REGISTER ;;
  ret [lo; hi].

(** The [switch (command)] of [_toCard]: [(irqEn, waitIRq)]. *)
Definition irq_config (command : Z) : Z * Z :=
  if command =? PCD_AUTHENTICATE then (0x12, 0x10)
  else if command =? PCD_TRANSCEIVE then (0x77, 0x30)
  else (0x00, 0x00).

(** The [break] condition of the poll loop, as written:
    [~((i !== 0) && ~(n & 0x01) && ~(n & waitIRq))]. *)
Definition poll_exit (i n waitIRq : Z) : bool :=
  JS.truthy
    (JS.bnot
       (JS.and
          (JS.and (JS.strict_neq (JS.Num i) (JS.Num 0))
                  (JS.bnot (JS.band (JS.Num n) (JS.Num 0x01))))
          (JS.bnot (JS.band (JS.Num n) (JS.Num waitIRq))))).

(** [while (true) { n = readSPI(COMMIRQ); i -= 1; if (...) break; }],
    yielding the last [n] and [i]. *)
Fixpoint poll_irq (fuel : nat) (waitIRq i : Z) : Drv (Z * Z) :=
  match fuel with
  | O => out_of_fuel
  | S fuel' =>
      n <- readSPI COMMIRQ_REGISTER ;;
      let i := i - 1 in
      if poll_exit i n waitIRq then ret (n, i) else poll_irq fuel' waitIRq i
  end.

(** [while (i < n) { backData.push(readSPI(FIFODATA)); i += 1 }] *)
Fixpoint fifo_drain (fuel : nat) (i n : Z) (backData : list Z) : Drv (list Z) :=
  match fuel with
  | O => if i <? n then out_of_fuel else ret backData
  | S fuel' =>
      if i <? n then
        fd <- readSPI FIFODATA_REGISTER ;;
        fifo_drain fuel' (i + 1) n (backData ++ [fd])
      else ret backData
  end.

Definition toCard (command : Z) (data : list Z) : Drv result :=
  let '(irqEn, waitIRq) := irq_config command in
  writeSPI COMMIEN_REGISTER (JS.lor irqEn 0x80) ;;
  clearBitMask COMMIRQ_REGISTER 0x80 ;;
  setBitMask FIFOLEVEL_REGISTER 0x80 ;;
  writeSPI COMMAND_REGISTER PCD_IDLE ;;
  fifo_fill data ;;
  writeSPI COMMAND_REGISTER command ;;
  (if command =? PCD_TRANSCEIVE
   then setBitMask BITFRAMING_REGISTER 0x80 else ret tt) ;;
  '(n, i) <- poll_irq 2000 waitIRq 2000 ;;
  clearBitMask BITFRAMING_REGISTER 0x80 ;;
  if negb (i =? 0) then
    ev <- readSPI ERROR_REGISTER ;;
    if JS.land ev 0x1B =? 0x00 then
      let status :=
        if negb (JS.land (JS.land n irqEn) 0x01 =? 0)
        then MI_NOTAGERR else MI_OK in
      if command =? PCD_TRANSCEIVE then
        n <- readSPI FIFOLEVEL_REGISTER ;;
        c <- readSPI CONTROL_REGISTER ;;
        let lastBits := JS.land c 0x07 in
        let backLen :=
          if negb (lastBits =? 0) then (n - 1) * 8 + lastBits else n * 8 in
        let n := if n =? 0 then 1 else n in
        let n := if n >? MAX_LEN then MAX_LEN else n in
        backData <- fifo_drain 16 0 n [] ;;
        ret (mkResult status backData backLen)
      else ret (mkResult status [] 0)
    else ret (mkResult MI_ERR [] 0)
  else ret (mkResult MI_ERR [] 0).

Definition cardPresent : Drv bool :=
  writeSPI BITFRAMING_REGISTER 0x07 ;;
  r <- toCard PCD_TRANSCEIVE [PICC_REQIDL] ;;
  let status :=
    if negb (status r =? MI_OK) || negb (backLen r =? 0x10)
    then MI_ERR else status r in
  ret (status =? MI_OK).

(** The returned [false] is rendered as [None], the UID array as [Some]. *)
Definition antiCollision : Drv (option (list Z)) :=
  writeSPI BITFRAMING_REGISTER 0x00 ;;
  r <- toCard PCD_TRANSCEIVE [PICC_ANTICOLL; 0x20] ;;
  if negb (status r =? MI_OK) then ret None
  else if negb (Z.of_nat (length (backData r)) =? 5) then ret None
  else if JS.truthy (JS.strict_neq (JS.Num (uidChecksum (firstn 4 (backData r))))
                                   (JS.index (backData r) 4))
       then ret None
  else ret (Some (firstn 4 (backData r))).

Definition auth1A (sector : Z) (key uid : list Z) : Drv bool :=
  let buff := [PICC_AUTHENT1A; sector] ++ key ++ uid in
  r <- toCard PCD_AUTHENTICATE buff ;;
  if negb (status r =? MI_OK) then ret false
  else
    sr <- readSPI STATUS2_REGISTER ;;
    if JS.truthy (JS.not (JS.band (JS.Num sr) (JS.Num 0x08))) then ret false
    else ret true.

(** The returned [false] is rendered as [None], the response array as [Some]. *)
Definition readSector (sector : Z) : Drv (option (list Z)) :=
  let recvData := [PICC_READ; sector] in
  crc <- calculateCRC recvData ;;
  let recvData := recvData ++ crc in
  r <- toCard PCD_TRANSCEIVE recvData ;;
  if negb (status r =? MI_OK) then ret None
  else ret (Some (backData r)).

(** The acknowledgment test of the first phase of [_writeSector], as
    written: [r.backData[0] & 0x0F !== 0x0A], where [!==] binds tighter
    than [&]. *)
Definition write_nak_phase1 (r : result) : bool :=
  negb (status r =? MI_OK) || negb (backLen r =? 4)
  || JS.truthy (JS.band (JS.index (backData r) 0)
                        (JS.strict_neq (JS.Num 0x0F) (JS.Num 0x0A))).

(** The acknowledgment test of the second phase:
    [(r.backData[0] & 0x0F) !== 0x0A]. *)
Definition write_nak_phase2 (r : result) : bool :=
  negb (status r =? MI_OK) || negb (backLen r =? 4)
  || JS.truthy (JS.strict_neq (JS.band (JS.index (backData r) 0) (JS.Num 0x0F))
                              (JS.Num 0x0A)).

(** The transport never fails. *)
Definition reliable : Prop :=
  forall tx d, exists rx d', spi_transfer tx d = (inr rx, d').

(** The method's promise settles (the model's loops had fuel enough),
    whatever state the chip is in. *)
Definition settles {A} (m : Drv A) : Prop :=
  forall d, fst (fst (m d)) <> OutOfFuel.

(** The method's promise resolves, whatever state the chip is in. *)
Definition returns {A} (m : Drv A) : Prop :=
  forall d, exists a d' t, m d = (Ok a, d', t).

Definition writeSector (sector : Z) (data : list Z) : Drv bool :=
  let buff := [PICC_WRITE; sector] in
  crc <- calculateCRC buff ;;
  let buff := buff ++ crc in
  r <- toCard PCD_TRANSCEIVE buff ;;
  if write_nak_phase1 r then ret false
  else
    if status r =? MI_OK then
      let buff := data in
      crc <- calculateCRC buff ;;
      let buff := buff ++ crc in
      r <- toCard PCD_TRANSCEIVE buff ;;
      if write_nak_phase2 r then ret false else ret true
    else ret true.

End Driver.

Arguments writeSPI {dev err} spi_transfer register value.
Arguments readSPI {dev err} spi_transfer register.
Arguments wait {dev err} elapse ms.
Arguments setBitMask {dev err} spi_transfer register mask.
Arguments clearBitMask {dev err} spi_transfer register mask.
Arguments idlePCD {dev err} spi_transfer.
Arguments fifo_fill {dev err} spi_transfer data.
Arguments crc_poll {dev err} spi_transfer elapse fuel attempts.
Arguments calculateCRC {dev err} spi_transfer elapse buf.
Arguments poll_irq {dev err} spi_transfer fuel waitIRq i.
Arguments fifo_drain {dev err} spi_transfer fuel i n backData.
Arguments toCard {dev err} spi_transfer command data.
Arguments cardPresent {dev err} spi_transfer.
Arguments antiCollision {dev err} spi_transfer.
Arguments auth1A {dev err} spi_transfer sector key uid.
Arguments readSector {dev err} spi_transfer elapse sector.
Arguments writeSector {dev err} spi_transfer elapse sector data.
Arguments reliable {dev err} spi_transfer.
Arguments returns {dev err A} m.
Arguments settles {dev err A} m.

(** ** What a run of the driver looks like from outside *)

Definition is_byte (z : Z) : Prop := 0 <= z < 256.

(** [polled w i ns n i']: entered with counter [i], the poll loop of [_toCard]
    read [ns] from the IRQ request register, one value per iteration, and left
    with the last value [n] and the counter at [i']. *)
Inductive polled (waitIRq : Z) : Z -> list Z -> Z -> Z -> Prop :=
| polled_break i n :
    is_byte n -> poll_exit (i - 1) n waitIRq = true ->
    polled waitIRq i [n] n (i - 1)
| polled_again i v ns n i' :
    is_byte v -> poll_exit (i - 1) v waitIRq = false ->
    polled waitIRq (i - 1) ns n i' ->
    polled waitIRq i (v :: ns) n i'.

(** [crc_polled a ns]: entered with [attempts = a], the poll loop of
    [_calculateCRC] read [ns] from the divider IRQ register. *)
Inductive crc_polled : Z -> list Z -> Prop :=
| crc_polled_stop a n :
    is_byte n -> crc_again (a - 1) n = false -> crc_polled a [n]
| crc_polled_again a v ns :
    is_byte v -> crc_again (a - 1) v = true -> crc_polled (a - 1) ns ->
    crc_polled a (v :: ns).

(** The three computations of [_toCard] after a successful command. *)
Definition status_of (n irqEn : Z) : Z :=
  if negb (JS.land (JS.land n irqEn) 0x01 =? 0) then MI_NOTAGERR else MI_OK.

Definition bit_length (n c : Z) : Z :=
  let lastBits := JS.land c 0x07 in
  if negb (lastBits =? 0) then (n - 1) * 8 + lastBits else n * 8.

Definition clamp_count (n : Z) : Z :=
  let n := if n =? 0 then 1 else n in
  if n >? MAX_LEN then MAX_LEN else n.

(** [toCard_tail command irqEn n i r tl]: what [_toCard] does after the poll
    loop left [n] and [i] and the start-send bit was cleared: the accesses
    [tl] and the result [r]. *)
Inductive toCard_tail (command irqEn n i : Z) : result -> list event -> Prop :=
| tail_budget :
    i = 0 ->
    toCard_tail command irqEn n i (mkResult MI_ERR [] 0) []
| tail_error ev :
    i <> 0 -> is_byte ev -> JS.land ev 0x1B <> 0 ->
    toCard_tail command irqEn n i (mkResult MI_ERR [] 0)
      [EvRead ERROR_REGISTER ev]
| tail_done ev :
    i <> 0 -> is_byte ev -> JS.land ev 0x1B = 0 -> command <> PCD_TRANSCEIVE ->
    toCard_tail command irqEn n i (mkResult (status_of n irqEn) [] 0)
      [EvRead ERROR_REGISTER ev]
| tail_data ev lvl c bd :
    i <> 0 -> is_byte ev -> JS.land ev 0x1B = 0 -> command = PCD_TRANSCEIVE ->
    is_byte lvl -> is_byte c -> Forall is_byte bd ->
    Z.of_nat (length bd) = clamp_count lvl ->
    toCard_tail command irqEn n i
      (mkResult (status_of n irqEn) bd (bit_length lvl c))
      ([EvRead ERROR_REGISTER ev; EvRead FIFOLEVEL_REGISTER lvl;
        EvRead CONTROL_REGISTER c] ++ map (EvRead FIFODATA_REGISTER) bd).

(** The accesses of [_toCard] up to the poll loop: [q] and [f] are the values
    read by the two read-modify-writes, [bf] the bit-framing value read when
    the command is transceive. *)
Definition toCard_head (command : Z) (data : list Z) (q f : Z) (bf : list Z)
  : list event :=
  [EvWrite COMMIEN_REGISTER (JS.uint8 (JS.lor (fst (irq_config command)) 0x80));
   EvRead COMMIRQ_REGISTER q;
   EvWrite COMMIRQ_REGISTER (JS.uint8 (JS.land q (JS.lnot 0x80)));
   EvRead FIFOLEVEL_REGISTER f;
   EvWrite FIFOLEVEL_REGISTER (JS.uint8 (JS.lor f 0x80));
   EvWrite COMMAND_REGISTER (JS.uint8 PCD_IDLE)]
  ++ map (fun b => EvWrite FIFODATA_REGISTER (JS.uint8 b)) data
  ++ [EvWrite COMMAND_REGISTER (JS.uint8 command)]
  ++ flat_map (fun b => [EvRead BITFRAMING_REGISTER b;
                         EvWrite BITFRAMING_REGISTER (JS.uint8 (JS.lor b 0x80))]) bf.

(** ** A scripted chip for concrete runs

    Reads of the FIFO data register pop the queued bytes (0 once the queue is
    empty); every other register reads as [regs] says; writes are accepted and
    ignored; the bus never fails. *)

Definition mock_transfer (regs : Z -> Z) (tx : Z * Z) (fifo : list Z)
  : (unit + Z * Z) * list Z :=
  let register := Z.land (Z.shiftr (fst tx) 1) 0x3F in
  if Z.testbit (fst tx) 7 then
    if register =? FIFODATA_REGISTER then
      match fifo with
      | [] => (inr (0, 0), [])
      | b :: rest => (inr (0, b), rest)
      end
    else (inr (0, regs register), fifo)
  else (inr (0, 0), fifo).

Definition mock_elapse (ms : Z) (fifo : list Z) : list Z := fifo.

(** Run a driver method on the scripted chip and keep result and log. *)
Definition observe {A} (m : M (list Z) unit A) (fifo : list Z)
  : outcome unit A * list event :=
  let '(r, _, t) := m fifo in (r, t).

Definition regs_of (l : list (Z * Z)) (r : Z) : Z :=
  match find (fun p => fst p =? r) l with
  | Some p => snd p
  | None => 0
  end.

(** Scripted chips for the scenarios below, by the registers they answer
    with a fixed non-zero value. *)
Definition chip (l : list (Z * Z)) : Z * Z -> list Z -> (unit + Z * Z) * list Z :=
  mock_transfer (regs_of l).

(** The timer interrupt is raised and nothing else: no card answers. *)
Definition timer_chip := chip [(COMMIRQ_REGISTER, 0x01)].

(** A card answers a request with two bytes. *)
Definition atqa_chip :=
  chip [(COMMIRQ_REGISTER, 0x30); (FIFOLEVEL_REGISTER, 2)].

(** A card answers the anti-collision command with five bytes. *)
Definition uid_chip :=
  chip [(COMMIRQ_REGISTER, 0x30); (FIFOLEVEL_REGISTER, 5)].

(** Authentication goes idle and the crypto unit is on. *)
Definition auth_chip :=
  chip [(COMMIRQ_REGISTER, 0x10); (STATUS2_REGISTER, 0x08)].

(** The CRC coprocessor never reports completion. *)
Definition crc_stuck_chip :=
  chip [(CRCRESULTL_REGISTER, 0x63); (CRCRESULTM_REGISTER, 0x42)].

(** A card answers every frame with a four-bit acknowledgment. *)
Definition ack_chip :=
  chip [(COMMIRQ_REGISTER, 0x30); (FIFOLEVEL_REGISTER, 1);
        (CONTROL_REGISTER, 4); (DIVIRQ_REGISTER, 0x04)].

(** The receiver interrupt is raised but the FIFO holds nothing. *)
Definition empty_fifo_chip := chip [(COMMIRQ_REGISTER, 0x30)].

(** A card answers a read with a single byte. *)
Definition short_read_chip :=
  chip [(COMMIRQ_REGISTER, 0x30); (FIFOLEVEL_REGISTER, 1);
        (DIVIRQ_REGISTER, 0x04)].

(** The FIFO level register reports 200 bytes. *)
Definition full_fifo_chip :=
  chip [(COMMIRQ_REGISTER, 0x30); (FIFOLEVEL_REGISTER, 200)].

(** ** The rest of the driver, and the UID printer of the examples *)

Definition MODE_REGISTER : Z := 0x11.
Definition TXCONTROL_REGISTER : Z := 0x14.
Definition TXASK_REGISTER : Z := 0x15.
Definition TMODE_REGISTER : Z := 0x2A.
Definition TPRESCALER_REGISTER : Z := 0x2B.
Definition TRELOAD_HIGH_REGISTER : Z := 0x2C.
Definition TRELOAD_LOW_REGISTER : Z := 0x2D.

Definition PICC_SELECTTAG : Z := 0x93.

(** [temp[k]] where [temp] is a number: a number has no indexed properties,
    so the member access yields [undefined] whatever the number. *)
Definition number_member (temp : Z) (k : nat) : JS.value := JS.Undefined.

Section DriverRest.

Variable dev : Type.
Variable err : Type.
Variable spi_transfer : Z * Z -> dev -> (err + Z * Z) * dev.
Variable elapse : Z -> dev -> dev.

Local Abbreviation Drv := (M dev err).

Definition selectCard (uid : list Z) : Drv bool :=
  writeSPI spi_transfer COMMAND_REGISTER PCD_IDLE ;;
  let buf := [PICC_SELECTTAG; 0x70] ++ uid ++ [uidChecksum uid] in
  crc <- calculateCRC spi_transfer elapse buf ;;
  let buf := buf ++ crc in
  r <- toCard spi_transfer PCD_TRANSCEIVE buf ;;
  ret (status r =? MI_OK).

Definition stopCrypto1 : Drv unit :=
  clearBitMask spi_transfer STATUS2_REGISTER 0x08.

(** The guard is written [~(temp[1] & 0x03)]. *)
Definition antennaOn : Drv unit :=
  temp <- readSPI spi_transfer TXCONTROL_REGISTER ;;
  if JS.truthy (JS.bnot (JS.band (number_member temp 1) (JS.Num 0x03)))
  then writeSPI spi_transfer TXCONTROL_REGISTER (JS.lor temp 0x03)
  else ret tt.

Definition resetPCD : Drv unit :=
  writeSPI spi_transfer COMMAND_REGISTER PCD_RESET ;;
  writeSPI spi_transfer TMODE_REGISTER 0x8D ;;
  writeSPI spi_transfer TPRESCALER_REGISTER 0x3E ;;
  writeSPI spi_transfer TRELOAD_LOW_REGISTER 30 ;;
  writeSPI spi_transfer TRELOAD_HIGH_REGISTER 0 ;;
  writeSPI spi_transfer TXASK_REGISTER 0x40 ;;
  writeSPI spi_transfer MODE_REGISTER 0x3D ;;
  antennaOn.

End DriverRest.

Arguments selectCard {dev err} spi_transfer elapse uid.
Arguments stopCrypto1 {dev err} spi_transfer.
Arguments antennaOn {dev err} spi_transfer.
Arguments resetPCD {dev err} spi_transfer.

(** The time a log spent in [wait], in milliseconds. *)
Fixpoint waited (t : list event) : Z :=
  match t with
  | [] => 0
  | EvWait ms :: t' => ms + waited t'
  | _ :: t' => waited t'
  end.

(** More scripted chips.  The receiver and the timer interrupt are raised
    together and one byte waits in the FIFO. *)
Definition no_tag_chip :=
  chip [(COMMIRQ_REGISTER, 0x31); (FIFOLEVEL_REGISTER, 1)].

(** The FIFO is empty but the control register reports three valid bits. *)
Definition stray_bits_chip :=
  chip [(COMMIRQ_REGISTER, 0x30); (CONTROL_REGISTER, 3)].

(** A card answers a read with a block of 16 bytes and its two CRC bytes. *)
Definition block_chip :=
  chip [(COMMIRQ_REGISTER, 0x30); (FIFOLEVEL_REGISTER, 18);
        (DIVIRQ_REGISTER, 0x04)].

(** Both antenna drivers are already on. *)
Definition antenna_chip := chip [(TXCONTROL_REGISTER, 0x83)].

(** *** [uidToString] of the example programs *)

Module Examples.

Import Ascii String.

(** [b.toString(16)] for an integer [b]: lower-case hexadecimal digits, no
    leading zero, a minus sign before the digits of a negative number. *)
Definition toString16 (b : Z) : string :=
  HexadecimalString.NilZero.string_of_int (Z.to_hex_int b).

(** The reducer of [uidToString]: [(s, b) => s + (b < 16 ? '0' : '') +
    b.toString(16)]. *)
Definition uid_step (s : string) (b : Z) : string :=
  append (append s (if b <? 16 then "0"%string else ""%string))
         (toString16 b).

(** [uid.reduce(..., '')] *)
Definition uidToString (uid : list Z) : string :=
  fold_left uid_step uid ""%string.

(** The value of a hexadecimal digit character, for reading a printed UID
    back. *)
Definition hex_value (c : ascii) : option Z :=
  let n := Z.of_N (N_of_ascii c) in
  if (48 <=? n) && (n <=? 57) then Some (n - 48)
  else if (97 <=? n) && (n <=? 102) then Some (n - 87)
  else None.

(** Read a string of two-digit hexadecimal bytes. *)
Fixpoint parse_uid (s : string) : option (list Z) :=
  match s with
  | EmptyString => Some []
  | String c1 (String c2 rest) =>
      match hex_value c1, hex_value c2, parse_uid rest with
      | Some h, Some l, Some bs => Some (16 * h + l :: bs)
      | _, _, _ => None
      end
  | _ => None
  end.

(** What [uidToString] adds for one element, and whether it reads back as that
    element. *)
Definition hex_pair (b : Z) : string := uid_step ""%string b.

Definition hex_pair_ok (b : Z) : bool :=
  match hex_pair b with
  | String c1 (String c2 EmptyString) =>
      match hex_value c1, hex_value c2 with
      | Some h, Some l => 16 * h + l =? b
      | _, _ => false
      end
  | _ => false
  end.

End Examples.

(** A chip whose registers are plain memory: a write stores the byte, a read
    returns the byte last stored (0 before any write); the address byte is
    decoded as the chip does, bits 6..1. *)
Definition memory_transfer (tx : Z * Z) (regs : list (Z * Z))
  : (unit + Z * Z) * list (Z * Z) :=
  let register := Z.land (Z.shiftr (fst tx) 1) 0x3F in
  if Z.testbit (fst tx) 7
  then (inr (0, regs_of regs register), regs)
  else (inr (0, 0), (register, snd tx) :: regs).

(** * Facts *)

(** ** Integer wrap-around and bit operations *)

Lemma int32_small z : - 2 ^ 31 <= z < 2 ^ 31 -> JS.int32 z = z.
Proof.
  intros H. unfold JS.int32.
  rewrite Z.mod_small; lia.
Qed.

Lemma uint8_byte z : is_byte (JS.uint8 z).
Proof. unfold is_byte, JS.uint8. apply Z.mod_pos_bound. lia. Qed.

Lemma byte_int32 z : is_byte z -> JS.int32 z = z.
Proof. unfold is_byte. intros H. apply int32_small. lia. Qed.

Lemma land_mask_bounds x w k :
  0 <= k -> 0 <= w < 2 ^ k -> 0 <= Z.land x w < 2 ^ k.
Proof.
  intros Hk Hw.
  assert (E : Z.land x w = Z.land x w mod 2 ^ k).
  { rewrite <- Z.land_ones by assumption.
    rewrite <- Z.land_assoc.
    rewrite (Z.land_ones w) by assumption.
    rewrite (Z.mod_small w) by assumption. reflexivity. }
  rewrite E. apply Z.mod_pos_bound. apply Z.pow_pos_nonneg; lia.
Qed.

Lemma js_land_byte a b : is_byte a -> is_byte b -> JS.land a b = Z.land a b.
Proof.
  intros Ha Hb. unfold JS.land. now rewrite !byte_int32.
Qed.

Lemma js_lxor_byte a b :
  is_byte a -> is_byte b -> JS.lxor a b = Z.lxor a b /\ is_byte (Z.lxor a b).
Proof.
  intros Ha Hb. unfold JS.lxor. rewrite !byte_int32 by assumption.
  split; [reflexivity|].
  unfold is_byte in *.
  assert (H0 : 0 <= Z.lxor a b) by (apply Z.lxor_nonneg; lia).
  split; [assumption|].
  destruct (Z.eq_dec (Z.lxor a b) 0) as [->|Hnz]; [lia|].
  apply (Z.log2_lt_pow2 _ 8); [lia|].
  eapply Z.le_lt_trans; [apply Z.log2_lxor; lia|].
  destruct (Z.eq_dec a 0) as [->|Ha0]; destruct (Z.eq_dec b 0) as [->|Hb0];
    simpl; try lia.
  - apply Z.max_lub_lt; [simpl; lia|]. apply Z.log2_lt_pow2; lia.
  - apply Z.max_lub_lt; [|simpl; lia]. apply Z.log2_lt_pow2; lia.
  - apply Z.max_lub_lt; apply Z.log2_lt_pow2; lia.
Qed.

(** ** The two loop conditions, in closed form *)

(** The [break] test of the poll loop holds exactly when the counter reached 0
    or a bit of [waitIRq] is set in [n]: bit 0 of [n] plays no part. *)
Lemma poll_exit_spec i n w :
  0 <= w < 2 ^ 31 ->
  poll_exit i n w = (i =? 0) || negb (Z.land (JS.int32 n) w =? 0).
Proof.
  intros Hw. unfold poll_exit, JS.strict_neq, JS.strict_eq.
  destruct (Z.eqb_spec i 0) as [Hi|Hi]; [reflexivity|].
  assert (H1 : 0 <= Z.land (JS.int32 n) 1 < 2 ^ 1)
    by (apply land_mask_bounds; simpl; lia).
  assert (T : JS.truthy (JS.bnot (JS.band (JS.Num n) (JS.Num 0x01))) = true).
  { cbn [JS.truthy JS.bnot JS.band JS.to_int32]. change (JS.int32 1) with 1.
    apply negb_true_iff, Z.eqb_neq.
    rewrite int32_small by lia. unfold Z.lnot. lia. }
  unfold JS.and at 2. cbn [negb JS.truthy]. unfold JS.and. rewrite T.
  cbn [JS.truthy JS.bnot JS.band JS.to_int32 orb].
  rewrite (int32_small w) by lia.
  assert (Hl : 0 <= Z.land (JS.int32 n) w < 2 ^ 31)
    by (apply land_mask_bounds; lia).
  rewrite (int32_small (Z.land _ _)) by lia.
  rewrite (int32_small (Z.lnot _)) by (unfold Z.lnot; lia).
  now rewrite Z.lnot_involutive.
Qed.

Lemma poll_exit_byte i n w :
  is_byte n -> 0 <= w < 2 ^ 31 ->
  poll_exit i n w = (i =? 0) || negb (Z.land n w =? 0).
Proof.
  intros Hn Hw. rewrite poll_exit_spec by assumption.
  now rewrite byte_int32.
Qed.

Lemma irq_config_wait_range command :
  0 <= snd (irq_config command) < 2 ^ 31.
Proof.
  unfold irq_config.
  destruct (command =? PCD_AUTHENTICATE); [simpl; lia|].
  destruct (command =? PCD_TRANSCEIVE); simpl; lia.
Qed.

(** The loop test of the CRC poll: attempts remain and the done bit is clear. *)
Lemma crc_again_spec a n :
  is_byte n ->
  crc_again a n = negb (a =? 0) && (Z.land n 0x04 =? 0).
Proof.
  intros Hn. unfold crc_again, JS.and.
  cbn [JS.truthy]. destruct (a =? 0) eqn:Ea; cbn [negb andb JS.truthy].
  { now rewrite Ea. }
  cbn [JS.not JS.band JS.truthy JS.to_int32].
  rewrite (byte_int32 n) by assumption. change (JS.int32 4) with 4.
  now rewrite negb_involutive.
Qed.

(** ** Logs *)

Lemma reads_of_app r t1 t2 : reads_of r (t1 ++ t2) = reads_of r t1 ++ reads_of r t2.
Proof.
  induction t1 as [|e t1 IH]; [reflexivity|].
  destruct e as [r' v|r' v|ms]; simpl; auto.
  destruct (r' =? r); simpl; now rewrite IH.
Qed.

Lemma reads_of_map_read r l : reads_of r (map (EvRead r) l) = l.
Proof.
  induction l as [|v l IH]; simpl; [reflexivity|].
  now rewrite Z.eqb_refl, IH.
Qed.

Lemma reads_of_map_read_other r r' l :
  r' <> r -> reads_of r (map (EvRead r') l) = [].
Proof.
  intros H. induction l as [|v l IH]; simpl; [reflexivity|].
  now rewrite (proj2 (Z.eqb_neq r' r) H).
Qed.

Lemma reads_of_map_write r r' (g : Z -> Z) l :
  reads_of r (map (fun b => EvWrite r' (g b)) l) = [].
Proof. induction l; simpl; auto. Qed.

(** ** Runs of the monad *)

Section Runs.

Context {D E : Type}.

Lemma bind_Ok {A B} (m : M D E A) (f : A -> M D E B) d b d' t :
  bind m f d = (Ok b, d', t) ->
  exists a d1 t1 t2,
    m d = (Ok a, d1, t1) /\ f a d1 = (Ok b, d', t2) /\ t = t1 ++ t2.
Proof.
  unfold bind. destruct (m d) as [[[a|e|] d1] t1]; try discriminate.
  destruct (f a d1) as [[r d2] t2] eqn:Hf.
  intros H. inversion H; subst. exists a, d1, t1, t2. auto.
Qed.

Lemma ret_Ok {A} (a b : A) (d d' : D) t :
  @ret D E A a d = (Ok b, d', t) -> b = a /\ d' = d /\ t = [].
Proof. unfold ret. intros H. inversion H. auto. Qed.

Lemma bind_run {A B} (m : M D E A) (f : A -> M D E B) d a d1 t1 :
  m d = (Ok a, d1, t1) ->
  bind m f d = (let '(r, d2, t2) := f a d1 in (r, d2, t1 ++ t2)).
Proof. unfold bind. now intros ->. Qed.

End Runs.

Section DriverFacts.

Variable dev : Type.
Variable err : Type.
Variable spi_transfer : Z * Z -> dev -> (err + Z * Z) * dev.
Variable elapse : Z -> dev -> dev.

(** *** Single accesses *)

Lemma readSPI_Ok register d v d' t :
  readSPI spi_transfer register d = (Ok v, d', t) ->
  is_byte v /\ t = [EvRead register v].
Proof.
  unfold readSPI. destruct (spi_transfer _ d) as [[e|rx] d1]; [discriminate|].
  intros H. inversion H; subst. split; [apply uint8_byte|reflexivity].
Qed.

Lemma writeSPI_Ok register value d u d' t :
  writeSPI spi_transfer register value d = (Ok u, d', t) ->
  t = [EvWrite register (JS.uint8 value)].
Proof.
  unfold writeSPI. destruct (spi_transfer _ d) as [[e|rx] d1]; [discriminate|].
  intros H. now inversion H.
Qed.

Lemma wait_Ok ms d u d' t :
  wait (err := err) elapse ms d = (Ok u, d', t) -> t = [EvWait ms].
Proof. unfold wait. intros H. now inversion H. Qed.

Lemma setBitMask_Ok register mask d u d' t :
  setBitMask spi_transfer register mask d = (Ok u, d', t) ->
  exists x, is_byte x /\
    t = [EvRead register x; EvWrite register (JS.uint8 (JS.lor x mask))].
Proof.
  unfold setBitMask. intros H.
  apply bind_Ok in H as (x & d1 & t1 & t2 & Hr & Hw & ->).
  apply readSPI_Ok in Hr as [Hx ->]. apply writeSPI_Ok in Hw as ->.
  exists x. auto.
Qed.

Lemma clearBitMask_Ok register mask d u d' t :
  clearBitMask spi_transfer register mask d = (Ok u, d', t) ->
  exists x, is_byte x /\
    t = [EvRead register x;
         EvWrite register (JS.uint8 (JS.land x (JS.lnot mask)))].
Proof.
  unfold clearBitMask. intros H.
  apply bind_Ok in H as (x & d1 & t1 & t2 & Hr & Hw & ->).
  apply readSPI_Ok in Hr as [Hx ->]. apply writeSPI_Ok in Hw as ->.
  exists x. auto.
Qed.

Lemma fifo_fill_Ok data : forall d u d' t,
  fifo_fill spi_transfer data d = (Ok u, d', t) ->
  t = map (fun b => EvWrite FIFODATA_REGISTER (JS.uint8 b)) data.
Proof.
  induction data as [|b rest IH]; intros d u d' t H; simpl in H.
  - now apply ret_Ok in H as (_ & _ & ->).
  - apply bind_Ok in H as (x & d1 & t1 & t2 & Hw & Hrest & ->).
    apply writeSPI_Ok in Hw as ->. apply IH in Hrest as ->. reflexivity.
Qed.

(** *** The three loops *)

Lemma poll_irq_Ok waitIRq fuel : forall i d n i' d' t,
  poll_irq spi_transfer fuel waitIRq i d = (Ok (n, i'), d', t) ->
  exists ns, t = map (EvRead COMMIRQ_REGISTER) ns /\ polled waitIRq i ns n i'.
Proof.
  induction fuel as [|fuel IH]; intros i d n i' d' t H; simpl in H.
  - discriminate.
  - apply bind_Ok in H as (v & d1 & t1 & t2 & Hr & Hk & ->).
    apply readSPI_Ok in Hr as [Hv ->].
    destruct (poll_exit (i - 1) v waitIRq) eqn:Hx.
    + apply ret_Ok in Hk as (Hk & _ & ->). inversion Hk; subst.
      eexists [_]. split; [reflexivity|]. now constructor.
    + apply IH in Hk as (ns & -> & Hp).
      exists (v :: ns). split; [reflexivity|]. now constructor.
Qed.

Lemma fifo_drain_Ok fuel : forall i n acc d bd d' t,
  fifo_drain spi_transfer fuel i n acc d = (Ok bd, d', t) ->
  exists xs,
    bd = acc ++ xs /\ t = map (EvRead FIFODATA_REGISTER) xs /\
    Forall is_byte xs /\ Z.of_nat (length xs) = Z.max 0 (n - i).
Proof.
  induction fuel as [|fuel IH]; intros i n acc d bd d' t H; simpl in H.
  - destruct (Z.ltb_spec i n); [discriminate|].
    apply ret_Ok in H as (-> & _ & ->).
    exists []. rewrite app_nil_r. repeat split; auto. simpl; lia.
  - destruct (Z.ltb_spec i n).
    + apply bind_Ok in H as (fd & d1 & t1 & t2 & Hr & Hk & ->).
      apply readSPI_Ok in Hr as [Hfd ->].
      apply IH in Hk as (xs & -> & -> & Hxs & Hlen).
      exists (fd :: xs). rewrite <- app_assoc. repeat split; auto.
      simpl length. lia.
    + apply ret_Ok in H as (-> & _ & ->).
      exists []. rewrite app_nil_r. repeat split; auto. simpl; lia.
Qed.

Lemma crc_poll_Ok fuel : forall a d u d' t,
  crc_poll spi_transfer elapse fuel a d = (Ok u, d', t) ->
  exists ns,
    t = flat_map (fun v => [EvWait 5; EvRead DIVIRQ_REGISTER v]) ns /\
    crc_polled a ns.
Proof.
  induction fuel as [|fuel IH]; intros a d u d' t H; simpl in H.
  - discriminate.
  - apply bind_Ok in H as (x & d1 & t1 & t2 & Hw & H & ->).
    apply wait_Ok in Hw as ->.
    apply bind_Ok in H as (v & d2 & t1 & t3 & Hr & Hk & ->).
    apply readSPI_Ok in Hr as [Hv ->].
    destruct (crc_again (a - 1) v) eqn:Hx.
    + apply IH in Hk as (ns & -> & Hp).
      exists (v :: ns). split; [reflexivity|]. now constructor.
    + apply ret_Ok in Hk as (_ & _ & ->).
      exists [v]. split; [reflexivity|]. now constructor.
Qed.

(** *** The transceive engine *)

Lemma clamp_count_range lvl :
  0 <= lvl -> 1 <= clamp_count lvl <= 16.
Proof.
  intros H. unfold clamp_count, MAX_LEN.
  destruct (Z.eqb_spec lvl 0); [simpl; lia|].
  destruct (Z.gtb_spec lvl 16); lia.
Qed.

(** Every resolved call of [_toCard]: the prologue, the polls, the clearing
    of the start-send bit, and one of the four endings. *)
Lemma toCard_Ok command data d r d' t :
  toCard spi_transfer command data d = (Ok r, d', t) ->
  exists q f bf ns n i x tl,
    t = toCard_head command data q f bf
        ++ map (EvRead COMMIRQ_REGISTER) ns
        ++ [EvRead BITFRAMING_REGISTER x;
            EvWrite BITFRAMING_REGISTER (JS.uint8 (JS.land x (JS.lnot 0x80)))]
        ++ tl
    /\ length bf = (if command =? PCD_TRANSCEIVE then 1%nat else 0%nat)
    /\ polled (snd (irq_config command)) 2000 ns n i
    /\ toCard_tail command (fst (irq_config command)) n i r tl.
Proof.
  unfold toCard, toCard_head.
  destruct (irq_config command) as [irqEn waitIRq]. cbn [fst snd].
  intros H.
  apply bind_Ok in H as (u1 & d1 & t1 & t1' & H1 & H & ->).
  apply writeSPI_Ok in H1 as ->.
  apply bind_Ok in H as (u2 & d2 & t2 & t2' & H2 & H & ->).
  apply clearBitMask_Ok in H2 as (q & Hq & ->).
  apply bind_Ok in H as (u3 & d3 & t3 & t3' & H3 & H & ->).
  apply setBitMask_Ok in H3 as (f & Hf & ->).
  apply bind_Ok in H as (u4 & d4 & t4 & t4' & H4 & H & ->).
  apply writeSPI_Ok in H4 as ->.
  apply bind_Ok in H as (u5 & d5 & t5 & t5' & H5 & H & ->).
  apply fifo_fill_Ok in H5 as ->.
  apply bind_Ok in H as (u6 & d6 & t6 & t6' & H6 & H & ->).
  apply writeSPI_Ok in H6 as ->.
  apply bind_Ok in H as (u7 & d7 & t7 & t7' & H7 & H & ->).
  assert (Hbf : exists bf,
    length bf = (if command =? PCD_TRANSCEIVE then 1%nat else 0%nat) /\
    t7 = flat_map (fun b => [EvRead BITFRAMING_REGISTER b;
           EvWrite BITFRAMING_REGISTER (JS.uint8 (JS.lor b 0x80))]) bf).
  { destruct (command =? PCD_TRANSCEIVE).
    - apply setBitMask_Ok in H7 as (b & _ & ->).
      exists [b]. split; reflexivity.
    - apply ret_Ok in H7 as (_ & _ & ->).
      exists []. split; reflexivity. }
  destruct Hbf as (bf & Hbf & ->). clear H7.
  apply bind_Ok in H as ([n i] & d8 & t8 & t8' & H8 & H & ->).
  apply poll_irq_Ok in H8 as (ns & -> & Hp).
  apply bind_Ok in H as (u9 & d9 & t9 & tl & H9 & H & ->).
  apply clearBitMask_Ok in H9 as (x & Hx & ->).
  exists q, f, bf, ns, n, i, x, tl.
  split; [|split; [assumption|split; [assumption|]]].
  { cbn [app]. rewrite <- !app_assoc. reflexivity. }
  destruct (Z.eqb_spec i 0) as [Hi|Hi]; cbn [negb] in H.
  { apply ret_Ok in H as (-> & _ & ->). constructor; assumption. }
  apply bind_Ok in H as (ev & d10 & t10 & t10' & H10 & H & ->).
  apply readSPI_Ok in H10 as [Hev ->].
  destruct (Z.eqb_spec (JS.land ev 0x1B) 0) as [He|He].
  2:{ apply ret_Ok in H as (-> & _ & ->). constructor; assumption. }
  destruct (Z.eqb_spec command PCD_TRANSCEIVE) as [Hc|Hc].
  2:{ apply ret_Ok in H as (-> & _ & ->). constructor; assumption. }
  apply bind_Ok in H as (lvl & d11 & t11 & t11' & H11 & H & ->).
  apply readSPI_Ok in H11 as [Hlvl ->].
  apply bind_Ok in H as (c & d12 & t12 & t12' & H12 & H & ->).
  apply readSPI_Ok in H12 as [Hc' ->].
  apply bind_Ok in H as (bd & d13 & t13 & t13' & H13 & H & ->).
  apply fifo_drain_Ok in H13 as (xs & -> & -> & Hxs & Hlen).
  apply ret_Ok in H as (-> & _ & ->).
  rewrite app_nil_r. cbn [app].
  apply (tail_data command irqEn n i ev lvl c xs); auto.
  fold (clamp_count lvl) in Hlen. rewrite Hlen.
  pose proof (clamp_count_range lvl (proj1 Hlvl)). lia.
Qed.

(** *** What the poll relations imply *)

Lemma polled_shape w i ns n i' :
  polled w i ns n i' ->
  i' = i - Z.of_nat (length ns) /\ (0 < length ns)%nat /\
  last ns 0 = n /\ is_byte n /\ poll_exit i' n w = true.
Proof.
  induction 1 as [i n Hn Hx|i v ns n i' Hv Hx Hp IH].
  - simpl. split; [lia|]. split; [lia|]. auto.
  - destruct IH as (-> & Hlen & Hlast & Hn & Hx').
    split; [simpl length; lia|]. split; [simpl length; lia|].
    split; [|auto].
    destruct ns; [simpl in Hlen; lia|exact Hlast].
Qed.

(** Before the last one, no poll satisfied the [break] test. *)
Lemma polled_earlier w i ns n i' :
  polled w i ns n i' ->
  forall k v, nth_error (removelast ns) k = Some v ->
              poll_exit (i - 1 - Z.of_nat k) v w = false.
Proof.
  induction 1 as [i n Hn Hx|i v ns n i' Hv Hx Hp IH]; intros k u Hk.
  - destruct k; discriminate.
  - assert (Hns : ns <> []).
    { apply polled_shape in Hp as (_ & Hl & _). destruct ns; [simpl in Hl; lia|discriminate]. }
    change (v :: ns) with ([v] ++ ns) in Hk.
    rewrite removelast_app in Hk by assumption. simpl in Hk.
    destruct k as [|k]; simpl in Hk.
    + inversion Hk; subst. now rewrite Z.sub_0_r.
    + apply IH in Hk. rewrite <- Hk. f_equal. lia.
Qed.

(** With a positive budget the loop ends with the budget used up or with a
    bit of the wait mask seen. *)
Lemma polled_reason w i ns n i' :
  0 <= w < 2 ^ 31 -> 0 < i ->
  polled w i ns n i' ->
  (i' = 0 /\ Z.of_nat (length ns) = i) \/ (0 < i' /\ Z.land n w <> 0).
Proof.
  intros Hw Hi Hp. revert Hi.
  induction Hp as [i n Hn Hx|i v ns n i' Hv Hx Hp IH]; intros Hi.
  - rewrite poll_exit_byte in Hx by assumption.
    apply orb_true_iff in Hx as [Hx|Hx].
    + apply Z.eqb_eq in Hx. left. simpl. lia.
    + apply negb_true_iff, Z.eqb_neq in Hx.
      destruct (Z.eq_dec (i - 1) 0) as [E|E]; [left; simpl; lia|right; lia].
  - rewrite poll_exit_byte in Hx by assumption.
    apply orb_false_iff in Hx as [Hx _]. apply Z.eqb_neq in Hx.
    destruct IH as [[-> Hl]|IH]; [lia| |right; exact IH].
    left. split; [reflexivity|]. simpl length. lia.
Qed.

(** With an empty wait mask only the budget ends the loop. *)
Lemma polled_nowait i ns n i' :
  0 < i -> polled 0 i ns n i' -> i' = 0 /\ Z.of_nat (length ns) = i.
Proof.
  intros Hi Hp.
  destruct (polled_reason 0 i ns n i') as [H|[_ H]]; auto; [lia|].
  now rewrite Z.land_0_r in H.
Qed.

Lemma crc_polled_shape a ns :
  0 < a -> crc_polled a ns ->
  1 <= Z.of_nat (length ns) <= a /\ Forall is_byte ns /\
  Forall (fun v => Z.land v 0x04 = 0) (removelast ns) /\
  (Z.of_nat (length ns) < a -> Z.land (last ns 0) 0x04 <> 0).
Proof.
  intros Ha Hp. revert Ha.
  induction Hp as [a n Hn Hx|a v ns Hv Hx Hp IH]; intros Ha.
  - rewrite crc_again_spec in Hx by assumption.
    simpl. split; [lia|]. split; [auto|]. split; [auto|].
    intros Hlt. apply andb_false_iff in Hx as [Hx|Hx].
    + apply negb_false_iff, Z.eqb_eq in Hx. lia.
    + now apply Z.eqb_neq in Hx.
  - rewrite crc_again_spec in Hx by assumption.
    apply andb_true_iff in Hx as [Hx Hd].
    apply negb_true_iff, Z.eqb_neq in Hx. apply Z.eqb_eq in Hd.
    destruct IH as (Hl & Hb & Hr & Hlast); [lia|].
    assert (Hns : ns <> []) by (destruct ns; [simpl in Hl; lia|discriminate]).
    split; [simpl length; lia|]. split; [auto|]. split.
    + change (v :: ns) with ([v] ++ ns).
      rewrite removelast_app by assumption. simpl. auto.
    + intros Hlt. simpl length in Hlt.
      destruct ns; [congruence|]. apply Hlast. simpl length in *. lia.
Qed.

(** *** The loops of the model never run out of fuel *)

Lemma settles_ret {A} (a : A) : settles (dev := dev) (err := err) (ret a).
Proof. intros d. discriminate. Qed.

Lemma settles_bind {A B} (m : M dev err A) (f : A -> M dev err B) :
  settles m -> (forall a, settles (f a)) -> settles (bind m f).
Proof.
  intros Hm Hf d. specialize (Hm d). unfold bind.
  destruct (m d) as [[[a|e|] d1] t1]; cbn [fst] in *.
  - specialize (Hf a d1). destruct (f a d1) as [[r d2] t2]. exact Hf.
  - discriminate.
  - contradiction.
Qed.

Lemma settles_readSPI register : settles (readSPI spi_transfer register).
Proof.
  intros d. unfold readSPI.
  destruct (spi_transfer _ d) as [[e|rx] d1]; discriminate.
Qed.

Lemma settles_writeSPI register value :
  settles (writeSPI spi_transfer register value).
Proof.
  intros d. unfold writeSPI.
  destruct (spi_transfer _ d) as [[e|rx] d1]; discriminate.
Qed.

Lemma settles_wait ms : settles (wait (err := err) elapse ms).
Proof. intros d. discriminate. Qed.

Lemma settles_fifo_fill data : settles (fifo_fill spi_transfer data).
Proof.
  induction data as [|b rest IH]; simpl.
  - apply settles_ret.
  - apply settles_bind; [apply settles_writeSPI|intros; exact IH].
Qed.

Lemma poll_exit_zero n w : poll_exit 0 n w = true.
Proof. reflexivity. Qed.

Lemma crc_again_zero n : crc_again 0 n = false.
Proof. reflexivity. Qed.

Lemma settles_poll_irq w fuel : forall i,
  0 < i <= Z.of_nat fuel -> settles (poll_irq spi_transfer fuel w i).
Proof.
  induction fuel as [|fuel IH]; intros i Hi; [lia|].
  cbn [poll_irq]. apply settles_bind; [apply settles_readSPI|intros n].
  destruct (poll_exit (i - 1) n w) eqn:Hx; [apply settles_ret|].
  apply IH.
  destruct (Z.eq_dec (i - 1) 0) as [E|E]; [|lia].
  rewrite E, poll_exit_zero in Hx. discriminate.
Qed.

Lemma settles_fifo_drain fuel : forall i n acc,
  n - i <= Z.of_nat fuel -> settles (fifo_drain spi_transfer fuel i n acc).
Proof.
  induction fuel as [|fuel IH]; intros i n acc Hn; cbn [fifo_drain];
    destruct (Z.ltb_spec i n); try apply settles_ret; [lia|].
  apply settles_bind; [apply settles_readSPI|intros fd].
  apply IH. lia.
Qed.

Lemma settles_crc_poll fuel : forall a,
  0 < a <= Z.of_nat fuel -> settles (crc_poll spi_transfer elapse fuel a).
Proof.
  induction fuel as [|fuel IH]; intros a Ha; [lia|].
  cbn [crc_poll]. apply settles_bind; [apply settles_wait|intros _].
  apply settles_bind; [apply settles_readSPI|intros n].
  destruct (crc_again (a - 1) n) eqn:Hx; [|apply settles_ret].
  apply IH.
  destruct (Z.eq_dec (a - 1) 0) as [E|E]; [|lia].
  rewrite E, crc_again_zero in Hx. discriminate.
Qed.

Ltac settles_step :=
  first
    [ apply settles_ret
    | apply settles_readSPI
    | apply settles_writeSPI
    | apply settles_wait
    | apply settles_fifo_fill
    | apply settles_bind; [|intros ?] ].

(** Whatever the chip and the transport do, [calculateCRC] resolves or
    rejects: 255 iterations are all its loop can take. *)
Lemma settles_calculateCRC buf : settles (calculateCRC spi_transfer elapse buf).
Proof.
  unfold calculateCRC, idlePCD, clearBitMask, setBitMask.
  do 5 (apply settles_bind; [repeat settles_step|intros ?]).
  apply settles_bind; [apply settles_crc_poll; simpl; lia|intros ?].
  repeat settles_step.
Qed.

(** Whatever the chip and the transport do, [toCard] resolves or rejects:
    2000 polls and 16 FIFO reads are all its loops can take. *)
Lemma settles_toCard command data : settles (toCard spi_transfer command data).
Proof.
  unfold toCard, clearBitMask, setBitMask.
  destruct (irq_config command) as [irqEn waitIRq].
  do 6 (apply settles_bind; [repeat settles_step|intros ?]).
  apply settles_bind.
  { destruct (command =? PCD_TRANSCEIVE); repeat settles_step. }
  intros ?.
  apply settles_bind; [apply settles_poll_irq; simpl; lia|intros [n i]].
  apply settles_bind; [repeat settles_step|intros ?].
  destruct (negb (i =? 0)); [|settles_step].
  apply settles_bind; [settles_step|intros ev].
  destruct (JS.land ev 27 =? 0); [|settles_step].
  destruct (command =? PCD_TRANSCEIVE); [|settles_step].
  apply settles_bind; [settles_step|intros lvl].
  apply settles_bind; [settles_step|intros c].
  apply settles_bind; [|intros ?; settles_step].
  apply settles_fifo_drain. unfold MAX_LEN.
  destruct (lvl =? 0); [simpl; lia|].
  destruct (Z.gtb_spec lvl 16); simpl; lia.
Qed.

(** *** Over a reliable transport every method resolves *)

Section Reliable.

Hypothesis transport_ok : reliable spi_transfer.

Lemma returns_ret {A} (a : A) : returns (dev := dev) (err := err) (ret a).
Proof. intros d. exists a, d, []. reflexivity. Qed.

Lemma returns_bind {A B} (m : M dev err A) (f : A -> M dev err B) :
  returns m -> (forall a, returns (f a)) -> returns (bind m f).
Proof.
  intros Hm Hf d. destruct (Hm d) as (a & d1 & t1 & H1).
  destruct (Hf a d1) as (b & d2 & t2 & H2).
  exists b, d2, (t1 ++ t2). rewrite (bind_run _ _ _ _ _ _ H1), H2. reflexivity.
Qed.

Lemma returns_readSPI register : returns (readSPI spi_transfer register).
Proof.
  intros d. unfold readSPI.
  destruct (transport_ok
              (JS.uint8 (JS.lor (JS.land (JS.shl register 1) 0x7E) 0x80),
               JS.uint8 0) d) as (rx & d1 & ->).
  eauto.
Qed.

Lemma returns_writeSPI register value :
  returns (writeSPI spi_transfer register value).
Proof.
  intros d. unfold writeSPI.
  destruct (transport_ok
              (JS.uint8 (JS.land (JS.shl register 1) 0x7E), JS.uint8 value) d)
    as (rx & d1 & ->).
  eauto.
Qed.

Lemma returns_wait ms : returns (wait (err := err) elapse ms).
Proof. intros d. unfold wait. eauto. Qed.

Lemma returns_setBitMask register mask :
  returns (setBitMask spi_transfer register mask).
Proof.
  apply returns_bind; [apply returns_readSPI|intros; apply returns_writeSPI].
Qed.

Lemma returns_clearBitMask register mask :
  returns (clearBitMask spi_transfer register mask).
Proof.
  apply returns_bind; [apply returns_readSPI|intros; apply returns_writeSPI].
Qed.

Lemma returns_fifo_fill data : returns (fifo_fill spi_transfer data).
Proof.
  induction data as [|b rest IH]; simpl.
  - apply returns_ret.
  - apply returns_bind; [apply returns_writeSPI|intros; exact IH].
Qed.

(** The poll loop needs no more iterations than its counter allows. *)
Lemma returns_poll_irq w fuel : forall i,
  0 < i <= Z.of_nat fuel -> returns (poll_irq spi_transfer fuel w i).
Proof.
  induction fuel as [|fuel IH]; intros i Hi; [lia|].
  cbn [poll_irq]. apply returns_bind; [apply returns_readSPI|intros n].
  destruct (poll_exit (i - 1) n w) eqn:Hx; [apply returns_ret|].
  apply IH.
  destruct (Z.eq_dec (i - 1) 0) as [E|E]; [|lia].
  rewrite E, poll_exit_zero in Hx. discriminate.
Qed.

Lemma returns_fifo_drain fuel : forall i n acc,
  n - i <= Z.of_nat fuel -> returns (fifo_drain spi_transfer fuel i n acc).
Proof.
  induction fuel as [|fuel IH]; intros i n acc Hn; cbn [fifo_drain];
    destruct (Z.ltb_spec i n); try apply returns_ret; [lia|].
  apply returns_bind; [apply returns_readSPI|intros fd].
  apply IH. lia.
Qed.

Lemma returns_crc_poll fuel : forall a,
  0 < a <= Z.of_nat fuel -> returns (crc_poll spi_transfer elapse fuel a).
Proof.
  induction fuel as [|fuel IH]; intros a Ha; [lia|].
  cbn [crc_poll]. apply returns_bind; [apply returns_wait|intros _].
  apply returns_bind; [apply returns_readSPI|intros n].
  destruct (crc_again (a - 1) n) eqn:Hx; [|apply returns_ret].
  apply IH.
  destruct (Z.eq_dec (a - 1) 0) as [E|E]; [|lia].
  rewrite E, crc_again_zero in Hx. discriminate.
Qed.

Ltac returns_step :=
  first
    [ apply returns_ret
    | apply returns_readSPI
    | apply returns_writeSPI
    | apply returns_wait
    | apply returns_setBitMask
    | apply returns_clearBitMask
    | apply returns_fifo_fill
    | apply returns_bind; [|intros ?]
    | match goal with
      | |- returns (if ?c then _ else _) => destruct c
      | |- returns (match ?x with (_, _) => _ end) => destruct x
      end ].

Lemma returns_calculateCRC buf :
  returns (calculateCRC spi_transfer elapse buf).
Proof.
  unfold calculateCRC, idlePCD.
  do 5 (apply returns_bind; [returns_step|intros ?]).
  apply returns_bind; [apply returns_crc_poll; simpl; lia|intros ?].
  repeat returns_step.
Qed.

Lemma returns_toCard command data :
  returns (toCard spi_transfer command data).
Proof.
  unfold toCard. destruct (irq_config command) as [irqEn waitIRq].
  do 6 (apply returns_bind; [returns_step|intros ?]).
  apply returns_bind; [repeat returns_step|intros ?].
  apply returns_bind; [apply returns_poll_irq; simpl; lia|intros [n i]].
  apply returns_bind; [returns_step|intros ?].
  destruct (negb (i =? 0)); [|returns_step].
  apply returns_bind; [returns_step|intros ev].
  destruct (JS.land ev 27 =? 0); [|returns_step].
  destruct (command =? PCD_TRANSCEIVE); [|returns_step].
  apply returns_bind; [returns_step|intros lvl].
  apply returns_bind; [returns_step|intros c].
  apply returns_bind; [|intros ?; returns_step].
  apply returns_fifo_drain. unfold MAX_LEN.
  destruct (lvl =? 0); [simpl; lia|].
  destruct (Z.gtb_spec lvl 16); simpl; lia.
Qed.

End Reliable.

(** The reads of register [r] in the prologue of [_toCard]. *)
Lemma reads_of_toCard_head r command data q f bf :
  reads_of r (toCard_head command data q f bf)
  = (if COMMIRQ_REGISTER =? r then [q] else [])
    ++ (if FIFOLEVEL_REGISTER =? r then [f] else [])
    ++ (if BITFRAMING_REGISTER =? r then bf else []).
Proof.
  unfold toCard_head. rewrite !reads_of_app, reads_of_map_write.
  cbn [reads_of app].
  assert (Hbf : reads_of r
            (flat_map (fun b => [EvRead BITFRAMING_REGISTER b;
               EvWrite BITFRAMING_REGISTER (JS.uint8 (JS.lor b 0x80))]) bf)
          = if BITFRAMING_REGISTER =? r then bf else []).
  { induction bf as [|b bf IH]; cbn [flat_map app reads_of].
    - now destruct (BITFRAMING_REGISTER =? r).
    - rewrite IH. now destruct (BITFRAMING_REGISTER =? r). }
  rewrite Hbf.
  destruct (COMMIRQ_REGISTER =? r); destruct (FIFOLEVEL_REGISTER =? r); reflexivity.
Qed.

Ltac reads_simpl :=
  rewrite ?reads_of_app, ?reads_of_toCard_head;
  rewrite ?reads_of_map_read, ?reads_of_map_read_other by discriminate;
  cbn [reads_of Z.eqb Pos.eqb app FIFODATA_REGISTER COMMIRQ_REGISTER
       FIFOLEVEL_REGISTER BITFRAMING_REGISTER ERROR_REGISTER CONTROL_REGISTER];
  rewrite ?reads_of_map_read, ?reads_of_map_read_other, ?app_nil_r by discriminate.

Ltac reads_simpl_in H :=
  rewrite ?reads_of_app, ?reads_of_toCard_head in H;
  rewrite ?reads_of_map_read, ?reads_of_map_read_other in H by discriminate;
  cbn [reads_of Z.eqb Pos.eqb app FIFODATA_REGISTER COMMIRQ_REGISTER
       FIFOLEVEL_REGISTER BITFRAMING_REGISTER ERROR_REGISTER CONTROL_REGISTER] in H;
  rewrite ?reads_of_map_read, ?reads_of_map_read_other, ?app_nil_r in H by discriminate.

(** A transceive that did not end in an error drained between 1 and 16 bytes. *)
Lemma toCard_transceive_payload data d r d' t :
  toCard spi_transfer PCD_TRANSCEIVE data d = (Ok r, d', t) ->
  status r <> MI_ERR ->
  (1 <= length (backData r) <= 16)%nat /\ Forall is_byte (backData r).
Proof.
  intros H Hs.
  apply toCard_Ok in H as (q & f & bf & ns & n & i & x & tl & _ & _ & _ & Ht).
  inversion Ht as [Hi Hr|ev Hi Hev He Hr|ev Hi Hev He Hc Hr
                   |ev lvl c bd Hi Hev He Hc Hl Hc' Hb Hn Hr];
    subst r; cbn [status backData] in *; try congruence.
  split; [|assumption].
  pose proof (clamp_count_range lvl (proj1 Hl)). lia.
Qed.

(** *** The card protocol layer *)

(** C8: [cardPresent] sets the bit framing to 7 bits, transceives the single
    request byte, and answers true exactly when that transceive has status
    OK and a response bit length of 16; for any other status or bit length
    it answers false. *)
Theorem cardPresent_iff_atqa d b d' t :
  cardPresent spi_transfer d = (Ok b, d', t) ->
  exists d0 r t1,
    writeSPI spi_transfer BITFRAMING_REGISTER 0x07 d
      = (Ok tt, d0, [EvWrite BITFRAMING_REGISTER 0x07]) /\
    toCard spi_transfer PCD_TRANSCEIVE [PICC_REQIDL] d0 = (Ok r, d', t1) /\
    t = EvWrite BITFRAMING_REGISTER 0x07 :: t1 /\
    (b = true <-> status r = MI_OK /\ backLen r = 16).
Proof.
  unfold cardPresent. intros H.
  apply bind_Ok in H as ([] & d0 & t0 & t' & Hw & H & ->).
  pose proof (writeSPI_Ok _ _ _ _ _ _ Hw) as ->.
  apply bind_Ok in H as (r & d1 & t1 & t2 & Hc & H & ->).
  apply ret_Ok in H as (-> & -> & ->).
  exists d0, r, t1. rewrite app_nil_r.
  split; [exact Hw|]. split; [exact Hc|]. split; [reflexivity|].
  destruct (Z.eqb_spec (status r) MI_OK) as [Hs|Hs];
    destruct (Z.eqb_spec (backLen r) 16) as [Hl|Hl]; cbn [negb orb].
  - rewrite Hs. split; [auto|reflexivity].
  - split; [discriminate|intros [_ E]; contradiction].
  - split; [discriminate|intros [E _]; contradiction].
  - split; [discriminate|intros [E _]; contradiction].
Qed.

(** The checksum of four bytes is their exclusive-or. *)
Lemma uidChecksum_four a b c e :
  is_byte a -> is_byte b -> is_byte c -> is_byte e ->
  uidChecksum [a; b; c; e] = Z.lxor (Z.lxor (Z.lxor a b) c) e.
Proof.
  intros Ha Hb Hc He. unfold uidChecksum. cbn [uidChecksum_from Nat.ltb Nat.leb].
  assert (H0 : is_byte 0) by (unfold is_byte; lia).
  destruct (js_lxor_byte 0 a H0 Ha) as [E1 B1]. rewrite E1.
  destruct (js_lxor_byte _ b B1 Hb) as [E2 B2]. rewrite E2.
  destruct (js_lxor_byte _ c B2 Hc) as [E3 B3]. rewrite E3.
  destruct (js_lxor_byte _ e B3 He) as [E4 B4]. rewrite E4.
  now rewrite Z.lxor_0_l.
Qed.

(** C5: [antiCollision] answers with a UID exactly when the transceive has
    status OK and returned five bytes whose fifth is the exclusive-or of the
    first four, and the UID is those four bytes; after any other status, any
    other number of bytes, or a fifth byte that differs from that
    exclusive-or, it answers [false]. *)
Theorem antiCollision_checks_bcc d res d' t :
  antiCollision spi_transfer d = (Ok res, d', t) ->
  exists d0 r t1,
    writeSPI spi_transfer BITFRAMING_REGISTER 0x00 d
      = (Ok tt, d0, [EvWrite BITFRAMING_REGISTER 0x00]) /\
    toCard spi_transfer PCD_TRANSCEIVE [PICC_ANTICOLL; 0x20] d0 = (Ok r, d', t1) /\
    t = EvWrite BITFRAMING_REGISTER 0x00 :: t1 /\
    (forall uid, res = Some uid <->
       status r = MI_OK /\
       exists a b c e,
         backData r = [a; b; c; e; Z.lxor (Z.lxor (Z.lxor a b) c) e] /\
         uid = [a; b; c; e]) /\
    (res = None <->
       status r <> MI_OK \/ length (backData r) <> 5%nat \/
       exists a b c e bcc,
         backData r = [a; b; c; e; bcc] /\
         bcc <> Z.lxor (Z.lxor (Z.lxor a b) c) e).
Proof.
  unfold antiCollision. intros H.
  apply bind_Ok in H as ([] & d0 & t0 & t' & Hw & H & ->).
  pose proof (writeSPI_Ok _ _ _ _ _ _ Hw) as ->.
  apply bind_Ok in H as (r & d1 & t1 & t2 & Hc & H & ->).
  exists d0, r, t1.
  split; [exact Hw|].
  assert (Hbytes : status r = MI_OK -> Forall is_byte (backData r)).
  { intros Hs. apply toCard_Ok in Hc as (q & f & bf & ns & n & i & x & tl & _ & _ & _ & Ht).
    inversion Ht; subst; cbn [backData]; auto. }
  destruct (Z.eqb_spec (status r) MI_OK) as [Hs|Hs]; cbn [negb] in H.
  2:{ apply ret_Ok in H as (-> & -> & ->). rewrite app_nil_r.
      split; [exact Hc|]. split; [reflexivity|]. split.
      - intros uid. split; [discriminate|intros [E _]; contradiction].
      - split; auto. }
  specialize (Hbytes Hs).
  destruct (Z.eqb_spec (Z.of_nat (length (backData r))) 5) as [Hl|Hl]; cbn [negb] in H.
  2:{ apply ret_Ok in H as (-> & -> & ->). rewrite app_nil_r.
      split; [exact Hc|]. split; [reflexivity|]. split.
      - intros uid. split; [discriminate|].
        intros (_ & a & b & c & e & E & _). rewrite E in Hl. simpl in Hl. lia.
      - split; [|reflexivity]. intros _. right. left. lia. }
  destruct (backData r) as [|a [|b [|c [|e [|bcc [|]]]]]] eqn:Hbd;
    simpl in Hl; try lia.
  assert (Hck : uidChecksum (firstn 4 [a; b; c; e; bcc])
                = Z.lxor (Z.lxor (Z.lxor a b) c) e).
  { cbn [firstn].
    inversion Hbytes as [|? ? Ba Hb1]; subst. inversion Hb1 as [|? ? Bb Hb2]; subst.
    inversion Hb2 as [|? ? Bc Hb3]; subst. inversion Hb3 as [|? ? Be Hb4]; subst.
    now apply uidChecksum_four. }
  rewrite Hck in H. cbn [JS.index nth_error JS.strict_neq JS.strict_eq JS.truthy] in H.
  destruct (Z.eqb_spec (Z.lxor (Z.lxor (Z.lxor a b) c) e) bcc) as [Hb|Hb];
    cbn [negb firstn] in H;
    apply ret_Ok in H as (-> & -> & ->); rewrite app_nil_r;
    (split; [exact Hc|]); (split; [reflexivity|]); split.
  - intros uid. split.
    + intros E. inversion E; subst. split; [assumption|].
      exists a, b, c, e. auto.
    + intros (_ & a' & b' & c' & e' & E & ->). inversion E; subst. reflexivity.
  - split; [discriminate|].
    intros [E|[E|(a' & b' & c' & e' & bcc' & E & Hne)]].
    + contradiction.
    + simpl in E. congruence.
    + inversion E; subst. congruence.
  - intros uid. split; [discriminate|].
    intros (_ & a' & b' & c' & e' & E & _). inversion E; subst. congruence.
  - split; [|reflexivity]. intros _. right. right.
    exists a, b, c, e, bcc. split; [reflexivity|congruence].
Qed.

(** C6: [auth1A] runs the authenticate command on the frame
    [[AUTHENT1A, sector] ++ key ++ uid]; when its status is not OK the answer
    is false and status register 2 is not read; when it is OK, status
    register 2 is read once and the answer is true exactly when its crypto
    bit 0x08 is set. *)
Theorem auth1A_requires_crypto_bit sector key uid d b d' t :
  auth1A spi_transfer sector key uid d = (Ok b, d', t) ->
  exists r d1 t1,
    toCard spi_transfer PCD_AUTHENTICATE ([PICC_AUTHENT1A; sector] ++ key ++ uid) d
      = (Ok r, d1, t1) /\
    ((status r <> MI_OK /\ b = false /\ t = t1) \/
     (status r = MI_OK /\
      exists sr,
        readSPI spi_transfer STATUS2_REGISTER d1
          = (Ok sr, d', [EvRead STATUS2_REGISTER sr]) /\
        t = t1 ++ [EvRead STATUS2_REGISTER sr] /\
        (b = true <-> Z.land sr 0x08 <> 0) /\
        (Z.land sr 0x08 = 0 -> b = false))).
Proof.
  unfold auth1A. intros H.
  apply bind_Ok in H as (r & d1 & t1 & t2 & Hc & H & ->).
  exists r, d1, t1. split; [exact Hc|].
  destruct (Z.eqb_spec (status r) MI_OK) as [Hs|Hs]; cbn [negb] in H.
  2:{ apply ret_Ok in H as (-> & -> & ->). rewrite app_nil_r. left. auto. }
  right. split; [assumption|].
  apply bind_Ok in H as (sr & d2 & t3 & t4 & Hr & H & ->).
  destruct (readSPI_Ok _ _ _ _ _ Hr) as [Hsr ->].
  exists sr.
  cbn [JS.truthy JS.not JS.band JS.to_int32] in H.
  rewrite (byte_int32 sr) in H by assumption. change (JS.int32 8) with 8 in H.
  rewrite negb_involutive in H.
  destruct (Z.eqb_spec (Z.land sr 8) 0) as [Hb|Hb];
    apply ret_Ok in H as (-> & -> & ->); rewrite app_nil_r;
    (split; [exact Hr|]); (split; [reflexivity|]); split.
  - split; [discriminate|contradiction].
  - reflexivity.
  - split; auto.
  - contradiction.
Qed.

(** C9 (as the code has it): [readSector] appends the CRC to [[READ, sector]] and
    transceives it; when the status is not OK it answers [false]; when it is
    OK it answers with the bytes drained from the FIFO, as many as the FIFO
    level register reported after the command, raised to 1 and capped at 16:
    between 1 and 16 bytes, not always 16. *)
Theorem readSector_payload_length sector d res d' t :
  readSector spi_transfer elapse sector d = (Ok res, d', t) ->
  exists crc d1 t1 r t2,
    calculateCRC spi_transfer elapse [PICC_READ; sector] d = (Ok crc, d1, t1) /\
    toCard spi_transfer PCD_TRANSCEIVE ([PICC_READ; sector] ++ crc) d1
      = (Ok r, d', t2) /\
    t = t1 ++ t2 /\
    ((status r <> MI_OK /\ res = None) \/
     (status r = MI_OK /\ res = Some (backData r) /\
      reads_of FIFODATA_REGISTER t2 = backData r /\
      (1 <= length (backData r) <= 16)%nat /\
      exists f lvl,
        reads_of FIFOLEVEL_REGISTER t2 = [f; lvl] /\ is_byte lvl /\
        Z.of_nat (length (backData r)) = Z.max 1 (Z.min lvl 16))).
Proof.
  unfold readSector. intros H.
  apply bind_Ok in H as (crc & d1 & t1 & t' & Hcrc & H & ->).
  apply bind_Ok in H as (r & d2 & t2 & t3 & Hc & H & ->).
  exists crc, d1, t1, r, t2.
  destruct (Z.eqb_spec (status r) MI_OK) as [Hs|Hs]; cbn [negb] in H;
    apply ret_Ok in H as (-> & -> & ->); rewrite app_nil_r;
    (split; [exact Hcrc|]); (split; [exact Hc|]); (split; [reflexivity|]).
  2:{ left. auto. }
  right. split; [assumption|]. split; [reflexivity|].
  assert (Hne : status r <> MI_ERR) by (rewrite Hs; discriminate).
  destruct (toCard_transceive_payload _ _ _ _ _ Hc Hne) as [Hlen _].
  apply toCard_Ok in Hc as (q & f & bf & ns & n & i & x & tl & -> & _ & _ & Ht).
  rewrite !reads_of_app, !reads_of_toCard_head.
  rewrite !reads_of_map_read_other by discriminate.
  inversion Ht as [Hi Hr|ev Hi Hev He Hr|ev Hi Hev He Hc Hr
                   |ev lvl c bd Hi Hev He Hc Hl Hc' Hb Hn Hr];
    subst r; cbn [status backData] in *; try congruence.
  cbn [reads_of Z.eqb Pos.eqb app FIFODATA_REGISTER COMMIRQ_REGISTER
       FIFOLEVEL_REGISTER BITFRAMING_REGISTER ERROR_REGISTER CONTROL_REGISTER].
  rewrite reads_of_map_read, reads_of_map_read_other by discriminate.
  split; [reflexivity|]. split; [exact Hlen|].
  exists f, lvl. split; [reflexivity|]. split; [assumption|].
  rewrite Hn. unfold clamp_count, MAX_LEN. unfold is_byte in Hl.
  destruct (Z.eqb_spec lvl 0); [subst; reflexivity|].
  destruct (Z.gtb_spec lvl 16); lia.
Qed.

(** C4: however many bytes the FIFO level register reports, [_toCard] reads
    the FIFO data register at most 16 times, and the bytes read are exactly
    the returned response buffer. *)
Theorem toCard_reads_at_most_16 command data d r d' t :
  toCard spi_transfer command data d = (Ok r, d', t) ->
  reads_of FIFODATA_REGISTER t = backData r /\
  (length (backData r) <= 16)%nat /\
  (command = PCD_TRANSCEIVE -> status r <> MI_ERR ->
   exists f lvl,
     reads_of FIFOLEVEL_REGISTER t = [f; lvl] /\ is_byte lvl /\
     Z.of_nat (length (backData r)) = Z.max 1 (Z.min lvl 16)).
Proof.
  intros H.
  apply toCard_Ok in H as (q & f & bf & ns & n & i & x & tl & -> & _ & _ & Ht).
  rewrite !reads_of_app, !reads_of_toCard_head.
  rewrite !reads_of_map_read_other by discriminate.
  cbn [reads_of Z.eqb Pos.eqb app FIFODATA_REGISTER COMMIRQ_REGISTER
       FIFOLEVEL_REGISTER BITFRAMING_REGISTER ERROR_REGISTER CONTROL_REGISTER].
  inversion Ht as [Hi Hr|ev Hi Hev He Hr|ev Hi Hev He Hc Hr
                   |ev lvl c bd Hi Hev He Hc Hl Hc' Hb Hn Hr];
    subst r; cbn [status backData reads_of app]; try (cbn; repeat split; (lia || congruence)).
  rewrite reads_of_map_read, reads_of_map_read_other by discriminate.
  pose proof (clamp_count_range lvl (proj1 Hl)) as Hrange.
  split; [reflexivity|]. split; [lia|].
  intros _ _. exists f, lvl. split; [reflexivity|]. split; [assumption|].
  rewrite Hn. unfold clamp_count, MAX_LEN. unfold is_byte in Hl.
  destruct (Z.eqb_spec lvl 0); [subst; reflexivity|].
  destruct (Z.gtb_spec lvl 16); lia.
Qed.

(** C3 (as the code has it): when a transceive reaches the FIFO level register and
    reads 0 there, with 0 valid bits reported for the last byte, the poll
    loop had ended on a wait-mask bit and the error register showed no
    error; exactly one byte is then read from the FIFO data register and
    returned, and the response bit length is 0 (it is computed from the level
    as read, before the read count is raised to 1). *)
Theorem toCard_transceive_empty_fifo data d r d' t f c :
  toCard spi_transfer PCD_TRANSCEIVE data d = (Ok r, d', t) ->
  reads_of FIFOLEVEL_REGISTER t = [f; 0] ->
  reads_of CONTROL_REGISTER t = [c] ->
  Z.land c 0x07 = 0 ->
  Z.land (last (reads_of COMMIRQ_REGISTER t) 0) 0x30 <> 0 /\
  (exists ev, reads_of ERROR_REGISTER t = [ev] /\ Z.land ev 0x1B = 0) /\
  status r <> MI_ERR /\
  length (backData r) = 1%nat /\
  reads_of FIFODATA_REGISTER t = backData r /\
  backLen r = 0.
Proof.
  intros H Hlvl Hctl Hbits.
  apply toCard_Ok in H as (q & f0 & bf & ns & n & i & x & tl & -> & _ & Hp & Ht).
  change (irq_config PCD_TRANSCEIVE) with (0x77, 0x30) in *. cbn [fst snd] in *.
  inversion Ht as [Hi Hr|ev Hi Hev He Hr|ev Hi Hev He Hc Hr
                   |ev lvl c0 bd Hi Hev He Hc Hl Hc' Hb Hn Hr];
    subst r tl; reads_simpl_in Hlvl; reads_simpl_in Hctl; try discriminate.
  reads_simpl.
  inversion Hlvl; subst f0 lvl. inversion Hctl; subst c0.
  destruct (polled_shape _ _ _ _ _ Hp) as (_ & Hlen & Hlast & Hn' & _).
  split.
  { assert (E : last (q :: ns) 0 = n).
    { destruct ns; [simpl in Hlen; lia|exact Hlast]. }
    rewrite E.
    destruct (polled_reason 0x30 2000 ns n i) as [[Hz _]|[_ Hw]];
      auto; lia. }
  split.
  { exists ev. split; [reflexivity|].
    rewrite <- js_land_byte; [assumption|assumption|unfold is_byte; lia]. }
  split.
  { cbn [status]. unfold status_of.
    destruct (negb _); discriminate. }
  cbn [backData backLen].
  split.
  { change (clamp_count 0) with 1 in Hn. lia. }
  split; [reflexivity|].
  unfold bit_length. rewrite js_land_byte by (assumption || unfold is_byte; lia).
  rewrite Hbits. reflexivity.
Qed.

(** C10: for every command other than transceive and authenticate both IRQ
    masks are 0; with an empty wait mask no IRQ byte ends the poll loop
    before the counter reaches 0, so every resolved call polled exactly 2000
    times, read no further register, and returned status ERROR with an
    empty buffer and bit length 0; and over a transport that does not fail
    the call always resolves so. *)
Theorem toCard_other_commands_time_out command data :
  command <> PCD_TRANSCEIVE -> command <> PCD_AUTHENTICATE ->
  irq_config command = (0x00, 0x00) /\
  (forall i n, i <> 0 -> poll_exit i n 0x00 = false) /\
  (forall d r d' t,
     toCard spi_transfer command data d = (Ok r, d', t) ->
     r = mkResult MI_ERR [] 0 /\
     exists q f ns x,
       length ns = 2000%nat /\
       t = toCard_head command data q f []
           ++ map (EvRead COMMIRQ_REGISTER) ns
           ++ [EvRead BITFRAMING_REGISTER x;
               EvWrite BITFRAMING_REGISTER (JS.uint8 (JS.land x (JS.lnot 0x80)))]) /\
  (reliable spi_transfer ->
   forall d, exists d' t,
     toCard spi_transfer command data d = (Ok (mkResult MI_ERR [] 0), d', t)).
Proof.
  intros Ht Ha.
  assert (Hcfg : irq_config command = (0, 0)).
  { unfold irq_config.
    destruct (Z.eqb_spec command PCD_AUTHENTICATE); [contradiction|].
    destruct (Z.eqb_spec command PCD_TRANSCEIVE); [contradiction|reflexivity]. }
  assert (Hrun : forall d r d' t,
     toCard spi_transfer command data d = (Ok r, d', t) ->
     r = mkResult MI_ERR [] 0 /\
     exists q f ns x,
       length ns = 2000%nat /\
       t = toCard_head command data q f []
           ++ map (EvRead COMMIRQ_REGISTER) ns
           ++ [EvRead BITFRAMING_REGISTER x;
               EvWrite BITFRAMING_REGISTER (JS.uint8 (JS.land x (JS.lnot 0x80)))]).
  { intros d r d' t H.
    apply toCard_Ok in H as (q & f & bf & ns & n & i & x & tl & -> & Hbf & Hp & Htl).
    rewrite Hcfg in Hp, Htl. cbn [fst snd] in Hp, Htl.
    destruct (Z.eqb_spec command PCD_TRANSCEIVE); [contradiction|].
    destruct bf; [|discriminate].
    destruct (polled_nowait 2000 ns n i) as [Hi Hlen]; [lia|assumption|].
    inversion Htl; subst; try contradiction.
    split; [reflexivity|].
    exists q, f, ns, x. split; [lia|]. now rewrite app_nil_r. }
  split; [exact Hcfg|]. split.
  { intros i n Hi. rewrite poll_exit_spec by lia.
    rewrite Z.land_0_r. apply Z.eqb_neq in Hi. now rewrite Hi. }
  split; [exact Hrun|].
  intros Hrel d.
  destruct (returns_toCard Hrel command data d) as (r & d' & t & H).
  destruct (Hrun _ _ _ _ H) as [-> _]. eauto.
Qed.

(** C7: every resolved call of [calculateCRC] set the coprocessor up,
    then polled the divider IRQ register between 1 and 255 times, each poll
    right after a 5 ms wait, stopping before the 255th poll only on a value
    with the done bit 0x04 set and never continuing past such a value; it then
    read the low and the high result register and returned those two bytes,
    also when all 255 polls passed without the done bit.  Over a transport
    that does not fail the call always resolves, with a two-element result. *)
Theorem calculateCRC_bounded_poll buf :
  (forall d crc d' t,
     calculateCRC spi_transfer elapse buf d = (Ok crc, d', t) ->
     exists x f ns lo hi,
       t = [EvRead DIVIRQ_REGISTER x;
            EvWrite DIVIRQ_REGISTER (JS.uint8 (JS.land x (JS.lnot 0x04)));
            EvRead FIFOLEVEL_REGISTER f;
            EvWrite FIFOLEVEL_REGISTER (JS.uint8 (JS.lor f 0x80));
            EvWrite COMMAND_REGISTER PCD_IDLE]
           ++ map (fun b => EvWrite FIFODATA_REGISTER (JS.uint8 b)) buf
           ++ [EvWrite COMMAND_REGISTER PCD_CALCCRC]
           ++ flat_map (fun v => [EvWait 5; EvRead DIVIRQ_REGISTER v]) ns
           ++ [EvRead CRCRESULTL_REGISTER lo; EvRead CRCRESULTM_REGISTER hi] /\
       crc = [lo; hi] /\
       (1 <= length ns <= 255)%nat /\
       Forall (fun v => Z.land v 0x04 = 0) (removelast ns) /\
       ((length ns < 255)%nat -> Z.land (last ns 0) 0x04 <> 0)) /\
  (reliable spi_transfer ->
   forall d, exists crc d' t,
     calculateCRC spi_transfer elapse buf d = (Ok crc, d', t) /\
     length crc = 2%nat).
Proof.
  assert (Hrun : forall d crc d' t,
     calculateCRC spi_transfer elapse buf d = (Ok crc, d', t) ->
     exists x f ns lo hi,
       t = [EvRead DIVIRQ_REGISTER x;
            EvWrite DIVIRQ_REGISTER (JS.uint8 (JS.land x (JS.lnot 0x04)));
            EvRead FIFOLEVEL_REGISTER f;
            EvWrite FIFOLEVEL_REGISTER (JS.uint8 (JS.lor f 0x80));
            EvWrite COMMAND_REGISTER PCD_IDLE]
           ++ map (fun b => EvWrite FIFODATA_REGISTER (JS.uint8 b)) buf
           ++ [EvWrite COMMAND_REGISTER PCD_CALCCRC]
           ++ flat_map (fun v => [EvWait 5; EvRead DIVIRQ_REGISTER v]) ns
           ++ [EvRead CRCRESULTL_REGISTER lo; EvRead CRCRESULTM_REGISTER hi] /\
       crc = [lo; hi] /\
       (1 <= length ns <= 255)%nat /\
       Forall (fun v => Z.land v 0x04 = 0) (removelast ns) /\
       ((length ns < 255)%nat -> Z.land (last ns 0) 0x04 <> 0)).
  { unfold calculateCRC, idlePCD. intros d crc d' t H.
    apply bind_Ok in H as (u1 & d1 & t1 & t1' & H1 & H & ->).
    apply clearBitMask_Ok in H1 as (x & Hx & ->).
    apply bind_Ok in H as (u2 & d2 & t2 & t2' & H2 & H & ->).
    apply setBitMask_Ok in H2 as (f & Hf & ->).
    apply bind_Ok in H as (u3 & d3 & t3 & t3' & H3 & H & ->).
    apply writeSPI_Ok in H3 as ->.
    apply bind_Ok in H as (u4 & d4 & t4 & t4' & H4 & H & ->).
    apply fifo_fill_Ok in H4 as ->.
    apply bind_Ok in H as (u5 & d5 & t5 & t5' & H5 & H & ->).
    apply writeSPI_Ok in H5 as ->.
    apply bind_Ok in H as (u6 & d6 & t6 & t6' & H6 & H & ->).
    apply crc_poll_Ok in H6 as (ns & -> & Hp).
    apply bind_Ok in H as (lo & d7 & t7 & t7' & H7 & H & ->).
    apply readSPI_Ok in H7 as [Hlo ->].
    apply bind_Ok in H as (hi & d8 & t8 & t8' & H8 & H & ->).
    apply readSPI_Ok in H8 as [Hhi ->].
    apply ret_Ok in H as (-> & _ & ->).
    exists x, f, ns, lo, hi.
    destruct (crc_polled_shape 255 ns) as (Hlen & _ & Hearly & Hlast);
      [lia|assumption|].
    split.
    { cbn [app]. rewrite <- ?app_assoc. reflexivity. }
    split; [reflexivity|]. split; [lia|]. split; [assumption|].
    intros Hlt. apply Hlast. lia. }
  split; [exact Hrun|].
  intros Hrel d.
  destruct (returns_calculateCRC Hrel buf d) as (crc & d' & t & H).
  exists crc, d', t. split; [exact H|].
  destruct (Hrun _ _ _ _ H) as (x & f & ns & lo & hi & _ & -> & _).
  reflexivity.
Qed.

End DriverFacts.

(** ** The two conditions that do not say what was meant *)

Lemma land_1_odd x : Z.land x 1 = Z.b2z (Z.odd x).
Proof.
  change 1 with (Z.ones 1) at 1. rewrite Z.land_ones by lia.
  now rewrite <- Z.bit0_odd, Z.bit0_mod.
Qed.

(** The first-phase test of [_writeSector] looks at bit 0 of the first
    response byte, not at its low nibble. *)
Lemma write_nak_phase1_spec st b rest len :
  is_byte b ->
  write_nak_phase1 (mkResult st (b :: rest) len)
  = negb (st =? MI_OK) || negb (len =? 4) || Z.odd b.
Proof.
  intros Hb. unfold write_nak_phase1. cbn [status backLen backData].
  f_equal.
  cbn [JS.index nth_error JS.strict_neq JS.strict_eq JS.band JS.to_int32 JS.truthy].
  change (negb (15 =? 10)) with true. cbn [JS.to_int32].
  rewrite byte_int32 by assumption. rewrite land_1_odd.
  now destruct (Z.odd b).
Qed.

(** The second-phase test compares the low nibble with 0xA. *)
Lemma write_nak_phase2_spec st b rest len :
  is_byte b ->
  write_nak_phase2 (mkResult st (b :: rest) len)
  = negb (st =? MI_OK) || negb (len =? 4) || negb (Z.land b 0x0F =? 0x0A).
Proof.
  intros Hb. unfold write_nak_phase2. cbn [status backLen backData].
  f_equal.
  cbn [JS.index nth_error JS.strict_neq JS.strict_eq JS.band JS.to_int32 JS.truthy].
  rewrite byte_int32 by assumption. reflexivity.
Qed.

(** C1 (not met by the code): in [_toCard] a poll that reads only
    the Timer-IRQ bit, with the counter not yet 0, does not end the loop:
    the [break] test is false at [i = 1999], [n = 0x01] for transceive, and
    for every command it is false whenever the counter is not 0 and no
    wait-mask bit is set in [n]; on a chip that raises only the timer
    interrupt a transceive polls 2000 times and returns ERROR. *)
Theorem toCard_poll_ignores_timer_irq :
  poll_exit 1999 0x01 (snd (irq_config PCD_TRANSCEIVE)) = false /\
  (forall command i n,
     i <> 0 -> Z.land (JS.int32 n) (snd (irq_config command)) = 0 ->
     poll_exit i n (snd (irq_config command)) = false) /\
  fst (observe (toCard timer_chip PCD_TRANSCEIVE [PICC_REQIDL]) [])
    = Ok (mkResult MI_ERR [] 0) /\
  reads_of COMMIRQ_REGISTER
    (snd (observe (toCard timer_chip PCD_TRANSCEIVE [PICC_REQIDL]) []))
    = repeat 0x01 2001.
Proof.
  split; [reflexivity|]. split.
  - intros command i n Hi Hn.
    rewrite poll_exit_spec by apply irq_config_wait_range.
    rewrite Hn. apply Z.eqb_neq in Hi. now rewrite Hi.
  - split; vm_compute; reflexivity.
Qed.

(** C2 (not met by the code): an acknowledgment whose low nibble
    is 0x4 passes the first-phase test of [_writeSector] and fails the
    second-phase test; on a chip that answers the first frame with 0x04 and
    the second with 0x0A, [writeSector] transmits both frames and returns
    true. *)
Theorem writeSector_phase1_accepts_nak :
  write_nak_phase1 (mkResult MI_OK [0x04] 4) = false /\
  write_nak_phase2 (mkResult MI_OK [0x04] 4) = true /\
  fst (observe (writeSector ack_chip mock_elapse 8
                  [0; 1; 2; 3; 4; 5; 6; 7; 8; 9; 10; 11; 12; 13; 14; 15])
               [0x04; 0x0A]) = Ok true /\
  reads_of FIFODATA_REGISTER
    (snd (observe (writeSector ack_chip mock_elapse 8
                     [0; 1; 2; 3; 4; 5; 6; 7; 8; 9; 10; 11; 12; 13; 14; 15])
                  [0x04; 0x0A])) = [0x04; 0x0A] /\
  writes_of COMMAND_REGISTER
    (snd (observe (writeSector ack_chip mock_elapse 8
                     [0; 1; 2; 3; 4; 5; 6; 7; 8; 9; 10; 11; 12; 13; 14; 15])
                  [0x04; 0x0A]))
  = [PCD_IDLE; PCD_CALCCRC; PCD_IDLE; PCD_TRANSCEIVE;
     PCD_IDLE; PCD_CALCCRC; PCD_IDLE; PCD_TRANSCEIVE].
Proof.
  repeat split; vm_compute; reflexivity.
Qed.

(** ** Concrete runs on the scripted chips *)

Lemma mock_reliable regs : reliable (mock_transfer regs).
Proof.
  intros tx d. unfold mock_transfer.
  destruct (Z.testbit (fst tx) 7); [|eauto].
  destruct (_ =? _); [destruct d|]; eauto.
Qed.

(** A two-byte answer to the request: a card is present. *)
Lemma cardPresent_iff_atqa_witness :
  cardPresent atqa_chip [0x04; 0x00]
    = (Ok true, [], snd (cardPresent atqa_chip [0x04; 0x00])) /\
  exists d0 r t1,
    writeSPI atqa_chip BITFRAMING_REGISTER 0x07 [0x04; 0x00]
      = (Ok tt, d0, [EvWrite BITFRAMING_REGISTER 0x07]) /\
    toCard atqa_chip PCD_TRANSCEIVE [PICC_REQIDL] d0 = (Ok r, [], t1) /\
    snd (cardPresent atqa_chip [0x04; 0x00])
      = EvWrite BITFRAMING_REGISTER 0x07 :: t1 /\
    (true = true <-> status r = MI_OK /\ backLen r = 16).
Proof.
  split; [vm_compute; reflexivity|].
  apply cardPresent_iff_atqa. vm_compute; reflexivity.
Defined.

(** Five bytes with a matching check byte: the UID is returned. *)
Lemma antiCollision_checks_bcc_witness :
  antiCollision uid_chip [0x01; 0x02; 0x04; 0x08; 0x0F]
    = (Ok (Some [0x01; 0x02; 0x04; 0x08]), [],
       snd (antiCollision uid_chip [0x01; 0x02; 0x04; 0x08; 0x0F])) /\
  exists r,
    status r = MI_OK /\
    exists a b c e,
      backData r = [a; b; c; e; Z.lxor (Z.lxor (Z.lxor a b) c) e] /\
      [0x01; 0x02; 0x04; 0x08] = [a; b; c; e].
Proof.
  split; [vm_compute; reflexivity|].
  destruct (antiCollision_checks_bcc _ _ uid_chip
              [0x01; 0x02; 0x04; 0x08; 0x0F]
              (Some [0x01; 0x02; 0x04; 0x08]) []
              (snd (antiCollision uid_chip [0x01; 0x02; 0x04; 0x08; 0x0F])))
    as (d0 & r & t1 & _ & _ & _ & Hsome & _).
  - vm_compute; reflexivity.
  - exists r. apply Hsome. reflexivity.
Defined.

(** Authentication went idle and the crypto bit is set. *)
Lemma auth1A_requires_crypto_bit_witness :
  auth1A auth_chip 8 [0xFF; 0xFF; 0xFF; 0xFF; 0xFF; 0xFF] [1; 2; 4; 8] []
    = (Ok true, [],
       snd (auth1A auth_chip 8 [0xFF; 0xFF; 0xFF; 0xFF; 0xFF; 0xFF] [1; 2; 4; 8] [])) /\
  exists r d1 t1,
    toCard auth_chip PCD_AUTHENTICATE
      ([PICC_AUTHENT1A; 8] ++ [0xFF; 0xFF; 0xFF; 0xFF; 0xFF; 0xFF] ++ [1; 2; 4; 8]) []
      = (Ok r, d1, t1) /\
    ((status r <> MI_OK /\ true = false /\
      snd (auth1A auth_chip 8 [0xFF; 0xFF; 0xFF; 0xFF; 0xFF; 0xFF] [1; 2; 4; 8] []) = t1) \/
     (status r = MI_OK /\
      exists sr,
        readSPI auth_chip STATUS2_REGISTER d1
          = (Ok sr, [], [EvRead STATUS2_REGISTER sr]) /\
        snd (auth1A auth_chip 8 [0xFF; 0xFF; 0xFF; 0xFF; 0xFF; 0xFF] [1; 2; 4; 8] [])
          = t1 ++ [EvRead STATUS2_REGISTER sr] /\
        (true = true <-> Z.land sr 0x08 <> 0) /\
        (Z.land sr 0x08 = 0 -> true = false))).
Proof.
  split; [vm_compute; reflexivity|].
  apply auth1A_requires_crypto_bit. vm_compute; reflexivity.
Defined.

(** A read answered with one byte returns a one-byte payload, not 16 bytes. *)
Lemma readSector_short_payload :
  readSector short_read_chip mock_elapse 8 [0x5A]
    = (Ok (Some [0x5A]), [],
       snd (readSector short_read_chip mock_elapse 8 [0x5A])) /\
  length [0x5A] <> 16%nat.
Proof.
  split; [vm_compute; reflexivity|simpl; lia].
Qed.

(** A full block: the level register reports 18 bytes, the first 16 are
    returned and the two CRC bytes stay in the FIFO. *)
Lemma readSector_payload_length_witness :
  readSector block_chip mock_elapse 8 [1; 2; 3; 4; 5; 6; 7; 8; 9; 10; 11; 12; 13; 14; 15; 16; 0xAB; 0xCD]
    = (Ok (Some [1; 2; 3; 4; 5; 6; 7; 8; 9; 10; 11; 12; 13; 14; 15; 16]), [0xAB; 0xCD],
       snd (readSector block_chip mock_elapse 8 [1; 2; 3; 4; 5; 6; 7; 8; 9; 10; 11; 12; 13; 14; 15; 16; 0xAB; 0xCD])) /\
  exists crc d1 t1 r t2,
    calculateCRC block_chip mock_elapse [PICC_READ; 8] [1; 2; 3; 4; 5; 6; 7; 8; 9; 10; 11; 12; 13; 14; 15; 16; 0xAB; 0xCD]
      = (Ok crc, d1, t1) /\
    toCard block_chip PCD_TRANSCEIVE ([PICC_READ; 8] ++ crc) d1
      = (Ok r, [0xAB; 0xCD], t2) /\
    snd (readSector block_chip mock_elapse 8 [1; 2; 3; 4; 5; 6; 7; 8; 9; 10; 11; 12; 13; 14; 15; 16; 0xAB; 0xCD]) = t1 ++ t2 /\
    ((status r <> MI_OK /\ Some [1; 2; 3; 4; 5; 6; 7; 8; 9; 10; 11; 12; 13; 14; 15; 16] = None) \/
     (status r = MI_OK /\ Some [1; 2; 3; 4; 5; 6; 7; 8; 9; 10; 11; 12; 13; 14; 15; 16] = Some (backData r) /\
      reads_of FIFODATA_REGISTER t2 = backData r /\
      (1 <= length (backData r) <= 16)%nat /\
      exists f lvl,
        reads_of FIFOLEVEL_REGISTER t2 = [f; lvl] /\ is_byte lvl /\
        Z.of_nat (length (backData r)) = Z.max 1 (Z.min lvl 16))).
Proof.
  split; [vm_compute; reflexivity|].
  apply readSector_payload_length. vm_compute; reflexivity.
Defined.

(** A FIFO level of 200: sixteen bytes are read. *)
Lemma toCard_reads_at_most_16_witness :
  toCard full_fifo_chip PCD_TRANSCEIVE [PICC_READ; 8] []
    = (Ok (mkResult MI_OK (repeat 0 16) 1600), [],
       snd (toCard full_fifo_chip PCD_TRANSCEIVE [PICC_READ; 8] [])) /\
  reads_of FIFODATA_REGISTER
    (snd (toCard full_fifo_chip PCD_TRANSCEIVE [PICC_READ; 8] []))
    = repeat 0 16 /\
  (length (repeat 0 16) <= 16)%nat /\
  (PCD_TRANSCEIVE = PCD_TRANSCEIVE -> MI_OK <> MI_ERR ->
   exists f lvl,
     reads_of FIFOLEVEL_REGISTER
       (snd (toCard full_fifo_chip PCD_TRANSCEIVE [PICC_READ; 8] [])) = [f; lvl] /\
     is_byte lvl /\
     Z.of_nat (length (repeat 0 16)) = Z.max 1 (Z.min lvl 16)).
Proof.
  split; [vm_compute; reflexivity|].
  apply (toCard_reads_at_most_16 _ _ full_fifo_chip PCD_TRANSCEIVE [PICC_READ; 8] []
           (mkResult MI_OK (repeat 0 16) 1600) []).
  vm_compute; reflexivity.
Defined.

(** A FIFO level of 0 with no extra bits: one byte is read, and the bit
    length is 0, not 8. *)
Lemma toCard_empty_fifo_bit_length_not_8 :
  toCard empty_fifo_chip PCD_TRANSCEIVE [PICC_REQIDL] [0x5A]
    = (Ok (mkResult MI_OK [0x5A] 0), [],
       snd (toCard empty_fifo_chip PCD_TRANSCEIVE [PICC_REQIDL] [0x5A])) /\
  reads_of COMMIRQ_REGISTER
    (snd (toCard empty_fifo_chip PCD_TRANSCEIVE [PICC_REQIDL] [0x5A])) = [0x30; 0x30] /\
  reads_of ERROR_REGISTER
    (snd (toCard empty_fifo_chip PCD_TRANSCEIVE [PICC_REQIDL] [0x5A])) = [0] /\
  reads_of FIFOLEVEL_REGISTER
    (snd (toCard empty_fifo_chip PCD_TRANSCEIVE [PICC_REQIDL] [0x5A])) = [0; 0] /\
  reads_of CONTROL_REGISTER
    (snd (toCard empty_fifo_chip PCD_TRANSCEIVE [PICC_REQIDL] [0x5A])) = [0] /\
  reads_of FIFODATA_REGISTER
    (snd (toCard empty_fifo_chip PCD_TRANSCEIVE [PICC_REQIDL] [0x5A])) = [0x5A] /\
  backLen (mkResult MI_OK [0x5A] 0) <> 8.
Proof.
  repeat split; try (vm_compute; reflexivity).
  simpl. lia.
Qed.

(** The same transceive: one byte drained, bit length 0. *)
Lemma toCard_transceive_empty_fifo_witness :
  toCard empty_fifo_chip PCD_TRANSCEIVE [PICC_REQIDL] [0x5A]
    = (Ok (mkResult MI_OK [0x5A] 0), [],
       snd (toCard empty_fifo_chip PCD_TRANSCEIVE [PICC_REQIDL] [0x5A])) /\
  Z.land
    (last (reads_of COMMIRQ_REGISTER
             (snd (toCard empty_fifo_chip PCD_TRANSCEIVE [PICC_REQIDL] [0x5A]))) 0)
    0x30 <> 0 /\
  (exists ev,
     reads_of ERROR_REGISTER
       (snd (toCard empty_fifo_chip PCD_TRANSCEIVE [PICC_REQIDL] [0x5A])) = [ev] /\
     Z.land ev 0x1B = 0) /\
  status (mkResult MI_OK [0x5A] 0) <> MI_ERR /\
  length (backData (mkResult MI_OK [0x5A] 0)) = 1%nat /\
  reads_of FIFODATA_REGISTER
    (snd (toCard empty_fifo_chip PCD_TRANSCEIVE [PICC_REQIDL] [0x5A]))
    = backData (mkResult MI_OK [0x5A] 0) /\
  backLen (mkResult MI_OK [0x5A] 0) = 0.
Proof.
  split; [vm_compute; reflexivity|].
  apply (toCard_transceive_empty_fifo _ _ empty_fifo_chip [PICC_REQIDL] [0x5A]
           (mkResult MI_OK [0x5A] 0) [] _ 0 0);
    vm_compute; reflexivity.
Defined.

(** The idle command on a chip that raises receiver and idle interrupts. *)
Lemma toCard_other_commands_time_out_witness :
  PCD_IDLE <> PCD_TRANSCEIVE /\ PCD_IDLE <> PCD_AUTHENTICATE /\
  irq_config PCD_IDLE = (0x00, 0x00) /\
  exists d' t,
    toCard empty_fifo_chip PCD_IDLE [] [0x5A] = (Ok (mkResult MI_ERR [] 0), d', t).
Proof.
  assert (H1 : PCD_IDLE <> PCD_TRANSCEIVE) by (vm_compute; discriminate).
  assert (H2 : PCD_IDLE <> PCD_AUTHENTICATE) by (vm_compute; discriminate).
  destruct (toCard_other_commands_time_out _ _ empty_fifo_chip PCD_IDLE [] H1 H2)
    as (Hcfg & _ & _ & Hres).
  split; [exact H1|]. split; [exact H2|]. split; [exact Hcfg|].
  apply Hres. apply mock_reliable.
Defined.

(** The coprocessor never finishes: 255 polls, then the two result bytes. *)
Lemma calculateCRC_bounded_poll_witness :
  calculateCRC crc_stuck_chip mock_elapse [PICC_READ; 8] []
    = (Ok [0x63; 0x42], [],
       snd (calculateCRC crc_stuck_chip mock_elapse [PICC_READ; 8] [])) /\
  length (reads_of DIVIRQ_REGISTER
            (snd (calculateCRC crc_stuck_chip mock_elapse [PICC_READ; 8] [])))
    = 256%nat /\
  (exists x f ns lo hi,
     snd (calculateCRC crc_stuck_chip mock_elapse [PICC_READ; 8] [])
     = [EvRead DIVIRQ_REGISTER x;
        EvWrite DIVIRQ_REGISTER (JS.uint8 (JS.land x (JS.lnot 0x04)));
        EvRead FIFOLEVEL_REGISTER f;
        EvWrite FIFOLEVEL_REGISTER (JS.uint8 (JS.lor f 0x80));
        EvWrite COMMAND_REGISTER PCD_IDLE]
       ++ map (fun b => EvWrite FIFODATA_REGISTER (JS.uint8 b)) [PICC_READ; 8]
       ++ [EvWrite COMMAND_REGISTER PCD_CALCCRC]
       ++ flat_map (fun v => [EvWait 5; EvRead DIVIRQ_REGISTER v]) ns
       ++ [EvRead CRCRESULTL_REGISTER lo; EvRead CRCRESULTM_REGISTER hi] /\
     [0x63; 0x42] = [lo; hi] /\
     (1 <= length ns <= 255)%nat /\
     Forall (fun v => Z.land v 0x04 = 0) (removelast ns) /\
     ((length ns < 255)%nat -> Z.land (last ns 0) 0x04 <> 0)) /\
  (exists crc d' t,
     calculateCRC crc_stuck_chip mock_elapse [PICC_READ; 8] [] = (Ok crc, d', t) /\
     length crc = 2%nat).
Proof.
  destruct (calculateCRC_bounded_poll _ _ crc_stuck_chip mock_elapse [PICC_READ; 8])
    as [Hrun Hres].
  split; [vm_compute; reflexivity|]. split; [vm_compute; reflexivity|]. split.
  - apply (Hrun [] [0x63; 0x42] []). vm_compute; reflexivity.
  - apply Hres. apply mock_reliable.
Defined.

(** * More of the driver *)

(** ** Bytes, again *)

(** A property of the integers below [n], checked one by one. *)
Lemma below_forallb (P : Z -> bool) (n : nat) :
  forallb P (map Z.of_nat (seq 0 n)) = true ->
  forall z, 0 <= z < Z.of_nat n -> P z = true.
Proof.
  intros H z Hz. rewrite forallb_forall in H. apply H.
  apply in_map_iff. exists (Z.to_nat z). split; [lia|].
  apply in_seq. lia.
Qed.

Lemma uint8_small z : is_byte z -> JS.uint8 z = z.
Proof. unfold is_byte, JS.uint8. intros H. now apply Z.mod_small. Qed.

Lemma int32_mod z : JS.int32 z mod 2 ^ 32 = z mod 2 ^ 32.
Proof.
  unfold JS.int32.
  rewrite Zminus_mod_idemp_l.
  replace (z + 2 ^ 31 - 2 ^ 31) with z by lia. reflexivity.
Qed.

(** Wrapping to 32 bits does not touch the bits a mask below 2^32 selects. *)
Lemma land_int32_l y m : 0 <= m < 2 ^ 32 -> Z.land (JS.int32 y) m = Z.land y m.
Proof.
  intros Hm.
  assert (E : forall x, Z.land x m = Z.land (x mod 2 ^ 32) m).
  { intros x. rewrite <- (Z.land_ones x 32) by lia.
    rewrite <- Z.land_assoc. f_equal.
    rewrite Z.land_comm, Z.land_ones by lia. now rewrite Z.mod_small. }
  rewrite (E (JS.int32 y)), (E y). now rewrite int32_mod.
Qed.

(** [(register << 1) & 0x7E], the address byte of a write: bits 6..1 carry the
    register number modulo 64. *)
Lemma write_address register :
  JS.uint8 (JS.land (JS.shl register 1) 0x7E) = 2 * (register mod 64).
Proof.
  unfold JS.land, JS.shl. change (JS.int32 126) with 126.
  rewrite !land_int32_l by lia.
  change 126 with (Z.shiftl 63 1). rewrite <- Z.shiftl_land.
  rewrite land_int32_l by lia.
  change 63 with (Z.ones 6). rewrite Z.land_ones by lia.
  rewrite Z.shiftl_mul_pow2 by lia. change (2 ^ 6) with 64. change (2 ^ 1) with 2.
  pose proof (Z.mod_pos_bound register 64 ltac:(lia)).
  rewrite uint8_small by (unfold is_byte; lia). lia.
Qed.

(** [((register << 1) & 0x7E) | 0x80], the address byte of a read. *)
Lemma read_address register :
  JS.uint8 (JS.lor (JS.land (JS.shl register 1) 0x7E) 0x80)
  = 2 * (register mod 64) + 128.
Proof.
  pose proof (write_address register) as Hw.
  pose proof (Z.mod_pos_bound register 64 ltac:(lia)) as Hm.
  assert (Hb : is_byte (JS.land (JS.shl register 1) 126)).
  { unfold JS.land. change (JS.int32 126) with 126.
    pose proof (land_mask_bounds (JS.int32 (JS.shl register 1)) 126 8).
    unfold is_byte. lia. }
  rewrite uint8_small in Hw by assumption. rewrite Hw.
  assert (H : forall m, 0 <= m < Z.of_nat 64 ->
               (JS.uint8 (JS.lor (2 * m) 128) =? 2 * m + 128) = true).
  { apply below_forallb. vm_compute. reflexivity. }
  apply Z.eqb_eq, H. simpl. lia.
Qed.

Lemma lor_byte x mask : is_byte x -> is_byte mask -> is_byte (Z.lor x mask).
Proof.
  intros Hx Hm. unfold is_byte in *.
  assert (H0 : 0 <= Z.lor x mask) by (apply Z.lor_nonneg; lia).
  split; [assumption|].
  destruct (Z.eq_dec (Z.lor x mask) 0) as [->|Hnz]; [lia|].
  apply (Z.log2_lt_pow2 _ 8); [lia|].
  rewrite Z.log2_lor by lia.
  destruct (Z.eq_dec x 0) as [->|Hx0]; destruct (Z.eq_dec mask 0) as [->|Hm0];
    simpl; try lia.
  - apply Z.max_lub_lt; [simpl; lia|]. apply Z.log2_lt_pow2; lia.
  - apply Z.max_lub_lt; [|simpl; lia]. apply Z.log2_lt_pow2; lia.
  - apply Z.max_lub_lt; apply Z.log2_lt_pow2; lia.
Qed.

(** The byte written by [_setBitMask]. *)
Lemma set_mask_value x mask :
  is_byte x -> is_byte mask -> JS.uint8 (JS.lor x mask) = Z.lor x mask.
Proof.
  intros Hx Hm. unfold JS.lor. rewrite !byte_int32 by assumption.
  apply uint8_small. now apply lor_byte.
Qed.

(** The byte written by [_clearBitMask]. *)
Lemma clear_mask_value x mask :
  is_byte x -> is_byte mask ->
  JS.uint8 (JS.land x (JS.lnot mask)) = Z.ldiff x mask.
Proof.
  intros Hx Hm. unfold JS.land, JS.lnot.
  rewrite (byte_int32 x), (byte_int32 mask) by assumption.
  rewrite int32_small by (unfold is_byte, Z.lnot in *; lia).
  rewrite <- Z.ldiff_land. apply uint8_small.
  unfold is_byte in *. split.
  - apply Z.ldiff_nonneg. lia.
  - rewrite Z.ldiff_land, Z.land_comm.
    pose proof (land_mask_bounds (Z.lnot mask) x 8). lia.
Qed.

Lemma writes_of_app r t1 t2 :
  writes_of r (t1 ++ t2) = writes_of r t1 ++ writes_of r t2.
Proof.
  induction t1 as [|e t1 IH]; [reflexivity|].
  destruct e as [r' v|r' v|ms]; simpl; auto.
  destruct (r' =? r); simpl; now rewrite IH.
Qed.

Lemma writes_of_map_read r r' l : writes_of r (map (EvRead r') l) = [].
Proof. induction l; simpl; auto. Qed.

Lemma writes_of_map_write r (g : Z -> Z) l :
  writes_of r (map (fun b => EvWrite r (g b)) l) = map g l.
Proof.
  induction l as [|v l IH]; simpl; [reflexivity|].
  now rewrite Z.eqb_refl, IH.
Qed.

Lemma writes_of_map_write_other r r' (g : Z -> Z) l :
  r' <> r -> writes_of r (map (fun b => EvWrite r' (g b)) l) = [].
Proof.
  intros H. induction l as [|v l IH]; simpl; [reflexivity|].
  now rewrite (proj2 (Z.eqb_neq r' r) H).
Qed.

Section MoreFacts.

Variable dev : Type.
Variable err : Type.
Variable spi_transfer : Z * Z -> dev -> (err + Z * Z) * dev.
Variable elapse : Z -> dev -> dev.

(** ** Register access *)

(** X1: whatever the register number, [writeSPI] puts [2 * (register mod 64)]
    and the value modulo 256 on the bus, and [readSPI] puts
    [2 * (register mod 64) + 128] and 0 and resolves to the second received
    byte: bit 7 tells read from write, bits 6..1 carry the register, bit 0
    is clear, and register numbers 64 apart share an address. *)
Theorem spi_address_bytes register :
  (forall value d,
     writeSPI spi_transfer register value d
     = match spi_transfer (2 * (register mod 64), value mod 256) d with
       | (inl e, d') => (Throw e, d', [])
       | (inr _, d') => (Ok tt, d', [EvWrite register (value mod 256)])
       end) /\
  (forall d,
     readSPI spi_transfer register d
     = match spi_transfer (2 * (register mod 64) + 128, 0) d with
       | (inl e, d') => (Throw e, d', [])
       | (inr rx, d') =>
           (Ok (snd rx mod 256), d', [EvRead register (snd rx mod 256)])
       end).
Proof.
  split.
  - intros value d. unfold writeSPI. rewrite write_address. reflexivity.
  - intros d. unfold readSPI. rewrite read_address. reflexivity.
Qed.

(** X3: [setBitMask] reads the register once and writes back a byte in which
    every bit of the mask is set and every other bit is as read. *)
Theorem setBitMask_sets_only_mask register mask d u d' t :
  is_byte mask ->
  setBitMask spi_transfer register mask d = (Ok u, d', t) ->
  exists x w,
    t = [EvRead register x; EvWrite register w] /\
    is_byte x /\ is_byte w /\
    forall k, Z.testbit w k = Z.testbit x k || Z.testbit mask k.
Proof.
  intros Hm H. apply setBitMask_Ok in H as (x & Hx & ->).
  exists x, (Z.lor x mask). rewrite set_mask_value by assumption.
  split; [reflexivity|]. split; [assumption|].
  split; [now apply lor_byte|]. intros k. apply Z.lor_spec.
Qed.

(** X4: [clearBitMask] reads the register once and writes back a byte in
    which every bit of the mask is clear and every other bit is as read. *)
Theorem clearBitMask_clears_only_mask register mask d u d' t :
  is_byte mask ->
  clearBitMask spi_transfer register mask d = (Ok u, d', t) ->
  exists x w,
    t = [EvRead register x; EvWrite register w] /\
    is_byte x /\ is_byte w /\
    forall k, Z.testbit w k = Z.testbit x k && negb (Z.testbit mask k).
Proof.
  intros Hm H. apply clearBitMask_Ok in H as (x & Hx & ->).
  exists x, (Z.ldiff x mask). rewrite clear_mask_value by assumption.
  split; [reflexivity|]. split; [assumption|]. split.
  - rewrite <- (clear_mask_value x mask) by assumption. apply uint8_byte.
  - intros k. apply Z.ldiff_spec.
Qed.

(** X5: [stopCrypto1] reads status register 2 once and writes it back with
    the crypto bit (bit 3) cleared and every other bit unchanged. *)
Theorem stopCrypto1_clears_crypto_bit d u d' t :
  stopCrypto1 spi_transfer d = (Ok u, d', t) ->
  exists x w,
    t = [EvRead STATUS2_REGISTER x; EvWrite STATUS2_REGISTER w] /\
    Z.testbit w 3 = false /\
    forall k, k <> 3 -> Z.testbit w k = Z.testbit x k.
Proof.
  unfold stopCrypto1. intros H. apply clearBitMask_Ok in H as (x & Hx & ->).
  exists x, (Z.ldiff x 8).
  rewrite clear_mask_value by (assumption || unfold is_byte; lia).
  split; [reflexivity|]. split.
  - rewrite Z.ldiff_spec. change (Z.testbit 8 3) with true.
    apply andb_false_r.
  - intros k Hk. rewrite Z.ldiff_spec.
    replace (Z.testbit 8 k) with false; [apply andb_true_r|].
    symmetry. change 8 with (2 ^ 3).
    destruct (Z.neg_nonneg_cases k) as [Hn|Hn]; [now apply Z.testbit_neg_r|].
    apply Z.pow2_bits_false. congruence.
Qed.

(** ** The UID checksum *)

Lemma uidChecksum_from_done uid : forall i c,
  (4 <= i)%nat -> uidChecksum_from i c uid = c.
Proof.
  induction uid as [|b rest IH]; intros i c Hi; [reflexivity|].
  cbn [uidChecksum_from].
  destruct (Nat.ltb_spec i 4); [lia|]. apply IH. lia.
Qed.

Lemma uidChecksum_from_app uid extra : forall i c,
  (4 <= i + length uid)%nat ->
  uidChecksum_from i c (uid ++ extra) = uidChecksum_from i c uid.
Proof.
  induction uid as [|b rest IH]; intros i c Hi.
  - simpl in *. rewrite Nat.add_0_r in Hi.
    now rewrite uidChecksum_from_done.
  - cbn [app uidChecksum_from]. apply IH. simpl in Hi. lia.
Qed.

Lemma uidChecksum_from_bytes uid : forall i c,
  is_byte c -> Forall is_byte uid ->
  uidChecksum_from i c uid = fold_left Z.lxor (firstn (4 - i) uid) c /\
  is_byte (uidChecksum_from i c uid).
Proof.
  induction uid as [|b rest IH]; intros i c Hc Hu.
  - rewrite firstn_nil. simpl. auto.
  - inversion Hu as [|? ? Hb Hrest]; subst.
    cbn [uidChecksum_from].
    destruct (Nat.ltb_spec i 4) as [Hi|Hi].
    + destruct (js_lxor_byte c b Hc Hb) as [E B]. rewrite E.
      destruct (IH (S i) (Z.lxor c b) B Hrest) as [IH1 IH2].
      split; [|assumption].
      rewrite IH1. replace (4 - i)%nat with (S (4 - S i)) by lia.
      reflexivity.
    + destruct (IH (S i) c Hc Hrest) as [IH1 IH2].
      split; [|assumption].
      rewrite IH1. replace (4 - S i)%nat with 0%nat by lia.
      replace (4 - i)%nat with 0%nat by lia. reflexivity.
Qed.

(** X6: on an array of bytes [uidChecksum] is the exclusive-or of the first
    four elements (of all of them when there are fewer), itself a byte, and
    whatever follows the fourth element does not change it. *)
Theorem uidChecksum_first_four uid :
  Forall is_byte uid ->
  uidChecksum uid = fold_left Z.lxor (firstn 4 uid) 0 /\
  is_byte (uidChecksum uid) /\
  forall extra, (4 <= length uid)%nat ->
                uidChecksum (uid ++ extra) = uidChecksum uid.
Proof.
  intros Hu. unfold uidChecksum.
  destruct (uidChecksum_from_bytes uid 0 0) as [E B];
    [unfold is_byte; lia|assumption|].
  split; [exact E|]. split; [exact B|].
  intros extra Hl. apply uidChecksum_from_app. simpl. lia.
Qed.

(** ** The transceive engine, further *)

Lemma writes_of_bitframing_start r bf :
  writes_of r
    (flat_map (fun b => [EvRead BITFRAMING_REGISTER b;
                         EvWrite BITFRAMING_REGISTER (JS.uint8 (JS.lor b 0x80))]) bf)
  = if BITFRAMING_REGISTER =? r
    then map (fun b => JS.uint8 (JS.lor b 0x80)) bf else [].
Proof.
  induction bf as [|b bf IH]; cbn [flat_map app writes_of map].
  - now destruct (BITFRAMING_REGISTER =? r).
  - rewrite IH. now destruct (BITFRAMING_REGISTER =? r).
Qed.

Ltac log_simpl :=
  unfold toCard_head;
  rewrite ?reads_of_app, ?writes_of_app;
  rewrite ?writes_of_bitframing_start, ?writes_of_map_read, ?writes_of_map_write;
  rewrite ?writes_of_map_write_other by discriminate;
  cbn [reads_of writes_of Z.eqb Pos.eqb app map fst snd
       FIFODATA_REGISTER COMMIRQ_REGISTER COMMIEN_REGISTER COMMAND_REGISTER
       FIFOLEVEL_REGISTER BITFRAMING_REGISTER ERROR_REGISTER CONTROL_REGISTER];
  rewrite ?writes_of_map_read, ?app_nil_r.

(** The value polled last, as the log shows it. *)
Lemma toCard_last_poll command data q f bf ns x tl n i w :
  polled w 2000 ns n i ->
  reads_of COMMIRQ_REGISTER tl = [] ->
  last (reads_of COMMIRQ_REGISTER
          (toCard_head command data q f bf
           ++ map (EvRead COMMIRQ_REGISTER) ns
           ++ [EvRead BITFRAMING_REGISTER x;
               EvWrite BITFRAMING_REGISTER (JS.uint8 (JS.land x (JS.lnot 0x80)))]
           ++ tl)) 0 = n /\
  reads_of COMMIRQ_REGISTER
    (toCard_head command data q f bf
     ++ map (EvRead COMMIRQ_REGISTER) ns
     ++ [EvRead BITFRAMING_REGISTER x;
         EvWrite BITFRAMING_REGISTER (JS.uint8 (JS.land x (JS.lnot 0x80)))]
     ++ tl) = q :: ns.
Proof.
  intros Hp Htl.
  rewrite !reads_of_app, reads_of_toCard_head, reads_of_map_read, Htl.
  cbn [reads_of Z.eqb Pos.eqb app COMMIRQ_REGISTER FIFOLEVEL_REGISTER
       BITFRAMING_REGISTER].
  rewrite app_nil_r.
  destruct (polled_shape _ _ _ _ _ Hp) as (_ & Hlen & Hlast & _).
  split; [|reflexivity].
  destruct ns; [simpl in Hlen; lia|exact Hlast].
Qed.

Lemma toCard_tail_no_poll command irqEn n i r tl :
  toCard_tail command irqEn n i r tl -> reads_of COMMIRQ_REGISTER tl = [].
Proof.
  intros H. inversion H; subst; cbn [reads_of Z.eqb Pos.eqb app
    ERROR_REGISTER COMMIRQ_REGISTER FIFOLEVEL_REGISTER CONTROL_REGISTER];
    try reflexivity.
  apply reads_of_map_read_other. discriminate.
Qed.

Lemma status_of_transceive n :
  is_byte n ->
  status_of n 0x77 = if Z.land n 1 =? 0 then MI_OK else MI_NOTAGERR.
Proof.
  intros Hn. unfold status_of.
  rewrite (js_land_byte n) by (assumption || unfold is_byte; lia).
  pose proof (land_mask_bounds n 0x77 7 ltac:(lia) ltac:(lia)) as Hb.
  rewrite js_land_byte by (unfold is_byte; lia).
  rewrite <- Z.land_assoc. change (Z.land 119 1) with 1.
  now destruct (Z.land n 1 =? 0).
Qed.

Lemma status_of_authenticate n : is_byte n -> status_of n 0x12 = MI_OK.
Proof.
  intros Hn. unfold status_of.
  rewrite (js_land_byte n) by (assumption || unfold is_byte; lia).
  pose proof (land_mask_bounds n 0x12 5 ltac:(lia) ltac:(lia)) as Hb.
  rewrite js_land_byte by (unfold is_byte; lia).
  rewrite <- Z.land_assoc. change (Z.land 18 1) with 0.
  now rewrite Z.land_0_r.
Qed.

(** X7: the status of [toCard] is OK, NO_TAG or ERROR; it is NO_TAG only for
    a transceive, and a transceive that did not end in ERROR reports NO_TAG
    exactly when the Timer-IRQ bit was set in the last value polled; the
    authenticate command never reports NO_TAG. *)
Theorem toCard_no_tag_only_transceive command data d r d' t :
  toCard spi_transfer command data d = (Ok r, d', t) ->
  (status r = MI_OK \/ status r = MI_NOTAGERR \/ status r = MI_ERR) /\
  (status r = MI_NOTAGERR -> command = PCD_TRANSCEIVE) /\
  (command = PCD_TRANSCEIVE -> status r <> MI_ERR ->
   (status r = MI_NOTAGERR <->
    Z.land (last (reads_of COMMIRQ_REGISTER t) 0) 0x01 <> 0)).
Proof.
  intros H.
  apply toCard_Ok in H as (q & f & bf & ns & n & i & x & tl & -> & _ & Hp & Ht).
  destruct (toCard_last_poll command data q f bf ns x tl n i _ Hp
              (toCard_tail_no_poll _ _ _ _ _ _ Ht)) as [-> _].
  destruct (polled_shape _ _ _ _ _ Hp) as (_ & _ & _ & Hn & _).
  assert (Hcases : command = PCD_TRANSCEIVE \/ command = PCD_AUTHENTICATE \/
                   (command <> PCD_TRANSCEIVE /\ irq_config command = (0, 0))).
  { unfold irq_config.
    destruct (Z.eqb_spec command PCD_AUTHENTICATE); [auto|].
    destruct (Z.eqb_spec command PCD_TRANSCEIVE); auto. }
  assert (Hst : status_of n (fst (irq_config command))
                = if (command =? PCD_TRANSCEIVE) && negb (Z.land n 1 =? 0)
                  then MI_NOTAGERR else MI_OK).
  { destruct Hcases as [->|[->|[Hne E]]].
    - change (fst (irq_config PCD_TRANSCEIVE)) with 0x77.
      rewrite status_of_transceive by assumption.
      now destruct (Z.land n 1 =? 0).
    - change (fst (irq_config PCD_AUTHENTICATE)) with 0x12.
      now rewrite status_of_authenticate.
    - rewrite E. cbn [fst]. unfold status_of, JS.land.
      change (JS.int32 0) with 0. rewrite Z.land_0_r. change (JS.int32 0) with 0.
      destruct (Z.eqb_spec command PCD_TRANSCEIVE); [contradiction|reflexivity]. }
  inversion Ht as [Hi Hr|ev Hi Hev He Hr|ev Hi Hev He Hc Hr
                   |ev lvl c bd Hi Hev He Hc Hl Hc' Hb Hlen Hr];
    subst r; cbn [status]; try rewrite Hst.
  - split; [auto|]. split; [discriminate|]. intros _ E. now elim E.
  - split; [auto|]. split; [discriminate|]. intros _ E. now elim E.
  - destruct (Z.eqb_spec command PCD_TRANSCEIVE); [contradiction|].
    cbn [andb]. split; [auto|]. split; [discriminate|]. intros E. contradiction.
  - subst command. cbn [Z.eqb Pos.eqb PCD_TRANSCEIVE andb].
    destruct (Z.eqb_spec (Z.land n 1) 0) as [E|E]; cbn [negb].
    + split; [auto|]. split; [discriminate|]. intros _ _.
      split; [discriminate|]. intros E'. contradiction.
    + split; [auto|]. split; [reflexivity|]. intros _ _.
      split; [intros _; exact E|reflexivity].
Qed.

(** X8: a resolved [toCard] polled the IRQ register at least once and at most
    2000 times (after the one read of its prologue); when it polled 2000
    times the result is ERROR with an empty buffer and the error register
    was never read, whatever the last poll showed; when it polled fewer
    times, the last value polled had a wait-mask bit set and the error
    register was read exactly once. *)
Theorem toCard_poll_budget command data d r d' t :
  toCard spi_transfer command data d = (Ok r, d', t) ->
  exists q ns,
    reads_of COMMIRQ_REGISTER t = q :: ns /\
    (1 <= length ns <= 2000)%nat /\
    (length ns = 2000%nat ->
     r = mkResult MI_ERR [] 0 /\ reads_of ERROR_REGISTER t = []) /\
    ((length ns < 2000)%nat ->
     Z.land (last ns 0) (snd (irq_config command)) <> 0 /\
     exists ev, reads_of ERROR_REGISTER t = [ev]).
Proof.
  intros H.
  apply toCard_Ok in H as (q & f & bf & ns & n & i & x & tl & -> & _ & Hp & Ht).
  destruct (toCard_last_poll command data q f bf ns x tl n i _ Hp
              (toCard_tail_no_poll _ _ _ _ _ _ Ht)) as [_ Hreads].
  exists q, ns. split; [exact Hreads|].
  destruct (polled_shape _ _ _ _ _ Hp) as (Hi & Hlen & Hlast & Hn & _).
  pose proof (irq_config_wait_range command) as Hw.
  destruct (polled_reason _ 2000 ns n i Hw ltac:(lia) Hp) as [[Hz Hl]|[Hpos Hhit]].
  - split; [lia|]. split; [|lia].
    intros _. inversion Ht; subst; try lia.
    split; [reflexivity|].
    rewrite !reads_of_app, reads_of_toCard_head, reads_of_map_read_other
      by discriminate.
    reflexivity.
  - split; [lia|]. split; [lia|].
    intros _. split; [now rewrite Hlast|].
    rewrite !reads_of_app, reads_of_toCard_head, reads_of_map_read_other
      by discriminate.
    cbn [reads_of Z.eqb Pos.eqb app ERROR_REGISTER COMMIRQ_REGISTER
         FIFOLEVEL_REGISTER BITFRAMING_REGISTER].
    inversion Ht; subst; try lia;
      cbn [reads_of Z.eqb Pos.eqb app ERROR_REGISTER COMMIRQ_REGISTER
           FIFOLEVEL_REGISTER BITFRAMING_REGISTER CONTROL_REGISTER];
      rewrite ?reads_of_map_read_other by discriminate; eauto.
Qed.

Lemma toCard_tail_no_write command irqEn n i r tl reg :
  toCard_tail command irqEn n i r tl -> writes_of reg tl = [].
Proof.
  intros H. inversion H; subst; cbn [writes_of app]; try reflexivity.
  apply writes_of_map_read.
Qed.

(** X9: whatever the outcome, a resolved [toCard] wrote to the FIFO data
    register exactly the bytes of [data] (each modulo 256), in order; wrote
    to the command register idle and then the command; and enabled the
    command's interrupts with the invert flag 0x80 added. *)
Theorem toCard_transmits_data command data d r d' t :
  toCard spi_transfer command data d = (Ok r, d', t) ->
  writes_of FIFODATA_REGISTER t = map (fun b => b mod 256) data /\
  writes_of COMMAND_REGISTER t = [PCD_IDLE; command mod 256] /\
  writes_of COMMIEN_REGISTER t = [fst (irq_config command) + 0x80].
Proof.
  intros H.
  apply toCard_Ok in H as (q & f & bf & ns & n & i & x & tl & -> & _ & _ & Ht).
  log_simpl.
  rewrite !(toCard_tail_no_write _ _ _ _ _ _ _ Ht).
  split; [now rewrite app_nil_r|]. split; [reflexivity|].
  f_equal. unfold irq_config.
  destruct (command =? PCD_AUTHENTICATE); [reflexivity|].
  destruct (command =? PCD_TRANSCEIVE); reflexivity.
Qed.

Lemma uint8_testbit z k : 0 <= k < 8 -> Z.testbit (JS.uint8 z) k = Z.testbit z k.
Proof.
  intros Hk. unfold JS.uint8. change 256 with (2 ^ 8).
  apply Z.mod_pow2_bits_low. lia.
Qed.

(** X10: every resolved [toCard] ends its traffic on the bit-framing register
    with a write whose start-send bit (bit 7) is clear, whatever the outcome;
    a transceive wrote the register once before, with the bit set, and the
    other commands did not. *)
Theorem toCard_ends_transmission command data d r d' t :
  toCard spi_transfer command data d = (Ok r, d', t) ->
  exists started stopped,
    writes_of BITFRAMING_REGISTER t = started ++ [stopped] /\
    Z.testbit stopped 7 = false /\
    (command <> PCD_TRANSCEIVE -> started = []) /\
    (command = PCD_TRANSCEIVE ->
     exists w, started = [w] /\ Z.testbit w 7 = true).
Proof.
  intros H.
  apply toCard_Ok in H as (q & f & bf & ns & n & i & x & tl & -> & Hbf & _ & Ht).
  log_simpl.
  rewrite (toCard_tail_no_write _ _ _ _ _ _ _ Ht).
  exists (map (fun b => JS.uint8 (JS.lor b 128)) bf),
         (JS.uint8 (JS.land x (JS.lnot 128))).
  split; [reflexivity|]. split.
  { rewrite uint8_testbit by lia. unfold JS.land, JS.lnot.
    change (JS.int32 128) with 128.
    rewrite Z.land_spec. change (JS.int32 (Z.lnot 128)) with (Z.lnot 128).
    change (Z.testbit (Z.lnot 128) 7) with false. apply andb_false_r. }
  destruct (Z.eqb_spec command PCD_TRANSCEIVE) as [Hc|Hc]; split;
    try contradiction.
  - intros _. destruct bf as [|b [|]]; try discriminate.
    exists (JS.uint8 (JS.lor b 128)). split; [reflexivity|].
    rewrite uint8_testbit by lia. unfold JS.lor.
    rewrite Z.lor_spec. change (Z.testbit (JS.int32 128) 7) with true.
    apply orb_true_r.
  - intros _. destruct bf; [reflexivity|discriminate].
Qed.

(** What a transceive that did not end in ERROR read after the polls. *)
Lemma toCard_transceive_data data d r d' t :
  toCard spi_transfer PCD_TRANSCEIVE data d = (Ok r, d', t) ->
  status r <> MI_ERR ->
  exists f lvl c,
    reads_of FIFOLEVEL_REGISTER t = [f; lvl] /\
    reads_of CONTROL_REGISTER t = [c] /\
    is_byte lvl /\ is_byte c /\
    Z.of_nat (length (backData r)) = clamp_count lvl /\
    backLen r = bit_length lvl c.
Proof.
  intros H Hs.
  apply toCard_Ok in H as (q & f & bf & ns & n & i & x & tl & -> & _ & _ & Ht).
  rewrite !reads_of_app, !reads_of_toCard_head.
  rewrite !reads_of_map_read_other by discriminate.
  inversion Ht as [Hi Hr|ev Hi Hev He Hr|ev Hi Hev He Hc Hr
                   |ev lvl c bd Hi Hev He Hc Hl Hc' Hb Hlen Hr];
    subst r; cbn [status backData backLen] in *; try congruence.
  exists f, lvl, c.
  cbn [reads_of Z.eqb Pos.eqb app ERROR_REGISTER COMMIRQ_REGISTER
       FIFOLEVEL_REGISTER BITFRAMING_REGISTER CONTROL_REGISTER].
  rewrite !reads_of_map_read_other by discriminate.
  repeat (split; [solve [reflexivity|assumption]|]). reflexivity.
Qed.

Lemma last_bits_range c : is_byte c -> 0 <= JS.land c 0x07 <= 7.
Proof.
  intros Hc. rewrite js_land_byte by (assumption || unfold is_byte; lia).
  pose proof (land_mask_bounds c 7 3 ltac:(lia) ltac:(lia)). lia.
Qed.

(** X11: when a transceive did not end in ERROR and the FIFO level register
    reported between 1 and 16 bytes, that many bytes are returned and the
    response bit length lies in the last of them: more than 8 bits per
    earlier byte, at most 8 bits per byte. *)
Theorem toCard_bit_length_in_last_byte data d r d' t f lvl :
  toCard spi_transfer PCD_TRANSCEIVE data d = (Ok r, d', t) ->
  status r <> MI_ERR ->
  reads_of FIFOLEVEL_REGISTER t = [f; lvl] ->
  1 <= lvl <= 16 ->
  Z.of_nat (length (backData r)) = lvl /\
  8 * (lvl - 1) < backLen r <= 8 * lvl.
Proof.
  intros H Hs Hf Hrange.
  destruct (toCard_transceive_data _ _ _ _ _ H Hs)
    as (f' & lvl' & c & Hf' & _ & _ & Hc & Hlen & Hbl).
  rewrite Hf in Hf'. inversion Hf'; subst f' lvl'.
  rewrite Hlen, Hbl. unfold clamp_count, bit_length, MAX_LEN.
  pose proof (last_bits_range c Hc) as Hb.
  destruct (Z.eqb_spec lvl 0); [lia|].
  destruct (Z.gtb_spec lvl 16); [lia|].
  split; [reflexivity|].
  destruct (Z.eqb_spec (JS.land c 7) 0); cbn [negb]; lia.
Qed.

(** X12: outside that range the bit length no longer fits the returned
    bytes.  A level above 16 returns 16 bytes and a bit length beyond them;
    a level of 0 returns one byte and a bit length of 0, or a negative one
    when the control register reports valid bits for the last byte. *)
Theorem toCard_bit_length_out_of_range data d r d' t f lvl c :
  toCard spi_transfer PCD_TRANSCEIVE data d = (Ok r, d', t) ->
  status r <> MI_ERR ->
  reads_of FIFOLEVEL_REGISTER t = [f; lvl] ->
  reads_of CONTROL_REGISTER t = [c] ->
  (16 < lvl ->
   length (backData r) = 16%nat /\ 8 * 16 < backLen r) /\
  (lvl = 0 ->
   length (backData r) = 1%nat /\
   (Z.land c 0x07 = 0 -> backLen r = 0) /\
   (Z.land c 0x07 <> 0 -> backLen r = Z.land c 0x07 - 8 /\ backLen r < 0)).
Proof.
  intros H Hs Hf Hctl.
  destruct (toCard_transceive_data _ _ _ _ _ H Hs)
    as (f' & lvl' & c' & Hf' & Hc' & _ & Hc & Hlen & Hbl).
  rewrite Hf in Hf'. inversion Hf'; subst f' lvl'.
  rewrite Hctl in Hc'. inversion Hc'; subst c'.
  pose proof (last_bits_range c Hc) as Hb.
  assert (E : JS.land c 7 = Z.land c 7)
    by (apply js_land_byte; [assumption|unfold is_byte; lia]).
  rewrite Hbl. unfold clamp_count, bit_length, MAX_LEN in *. rewrite E in *.
  split.
  - intros Hbig.
    destruct (Z.eqb_spec lvl 0); [lia|].
    destruct (Z.gtb_spec lvl 16); [|lia].
    split; [lia|].
    destruct (Z.eqb_spec (Z.land c 7) 0); cbn [negb]; lia.
  - intros ->. cbn [Z.eqb Z.gtb Z.compare Pos.compare Pos.compare_cont] in Hlen.
    split; [lia|]. split.
    + intros ->. reflexivity.
    + intros Hnz. destruct (Z.eqb_spec (Z.land c 7) 0); [contradiction|].
      cbn [negb]. lia.
Qed.

(** ** Frames: CRC, select, read, write *)

(** The accesses of a resolved [calculateCRC] and its two result bytes. *)
Lemma calculateCRC_log buf d crc d' t :
  calculateCRC spi_transfer elapse buf d = (Ok crc, d', t) ->
  exists x f ns lo hi,
    crc = [lo; hi] /\ is_byte lo /\ is_byte hi /\ crc_polled 255 ns /\
    t = [EvRead DIVIRQ_REGISTER x;
         EvWrite DIVIRQ_REGISTER (JS.uint8 (JS.land x (JS.lnot 0x04)));
         EvRead FIFOLEVEL_REGISTER f;
         EvWrite FIFOLEVEL_REGISTER (JS.uint8 (JS.lor f 0x80));
         EvWrite COMMAND_REGISTER PCD_IDLE]
        ++ map (fun b => EvWrite FIFODATA_REGISTER (JS.uint8 b)) buf
        ++ [EvWrite COMMAND_REGISTER PCD_CALCCRC]
        ++ flat_map (fun v => [EvWait 5; EvRead DIVIRQ_REGISTER v]) ns
        ++ [EvRead CRCRESULTL_REGISTER lo; EvRead CRCRESULTM_REGISTER hi].
Proof.
  unfold calculateCRC, idlePCD. intros H.
  apply bind_Ok in H as (u1 & d1 & t1 & t1' & H1 & H & ->).
  apply clearBitMask_Ok in H1 as (x & Hx & ->).
  apply bind_Ok in H as (u2 & d2 & t2 & t2' & H2 & H & ->).
  apply setBitMask_Ok in H2 as (f & Hf & ->).
  apply bind_Ok in H as (u3 & d3 & t3 & t3' & H3 & H & ->).
  apply writeSPI_Ok in H3 as ->.
  apply bind_Ok in H as (u4 & d4 & t4 & t4' & H4 & H & ->).
  apply fifo_fill_Ok in H4 as ->.
  apply bind_Ok in H as (u5 & d5 & t5 & t5' & H5 & H & ->).
  apply writeSPI_Ok in H5 as ->.
  apply bind_Ok in H as (u6 & d6 & t6 & t6' & H6 & H & ->).
  apply crc_poll_Ok in H6 as (ns & -> & Hp).
  apply bind_Ok in H as (lo & d7 & t7 & t7' & H7 & H & ->).
  apply readSPI_Ok in H7 as [Hlo ->].
  apply bind_Ok in H as (hi & d8 & t8 & t8' & H8 & H & ->).
  apply readSPI_Ok in H8 as [Hhi ->].
  apply ret_Ok in H as (-> & _ & ->).
  exists x, f, ns, lo, hi.
  split; [reflexivity|]. split; [assumption|]. split; [assumption|].
  split; [assumption|].
  cbn [app]. rewrite <- ?app_assoc. reflexivity.
Qed.

Lemma log_of_crc_poll_writes r ns :
  writes_of r (flat_map (fun v => [EvWait 5; EvRead DIVIRQ_REGISTER v]) ns) = [].
Proof. induction ns; cbn [flat_map app writes_of]; auto. Qed.

Lemma log_of_crc_poll_reads r ns :
  DIVIRQ_REGISTER <> r ->
  reads_of r (flat_map (fun v => [EvWait 5; EvRead DIVIRQ_REGISTER v]) ns) = [].
Proof.
  intros H. induction ns; cbn [flat_map app reads_of]; auto.
  now rewrite (proj2 (Z.eqb_neq _ _) H).
Qed.

(** What [calculateCRC] feeds the coprocessor and where its answer comes
    from. *)
Lemma calculateCRC_frame buf d crc d' t :
  calculateCRC spi_transfer elapse buf d = (Ok crc, d', t) ->
  exists lo hi,
    crc = [lo; hi] /\ is_byte lo /\ is_byte hi /\
    writes_of FIFODATA_REGISTER t = map (fun b => b mod 256) buf /\
    writes_of COMMAND_REGISTER t = [PCD_IDLE; PCD_CALCCRC] /\
    reads_of CRCRESULTL_REGISTER t = [lo] /\
    reads_of CRCRESULTM_REGISTER t = [hi] /\
    reads_of FIFODATA_REGISTER t = [].
Proof.
  intros H.
  apply calculateCRC_log in H as (x & f & ns & lo & hi & -> & Hlo & Hhi & _ & ->).
  exists lo, hi.
  split; [reflexivity|]. split; [assumption|]. split; [assumption|].
  rewrite !writes_of_app, !reads_of_app.
  rewrite !log_of_crc_poll_writes, !log_of_crc_poll_reads by discriminate.
  rewrite writes_of_map_write, writes_of_map_write_other by discriminate.
  rewrite !reads_of_map_write.
  cbn [reads_of writes_of Z.eqb Pos.eqb app
       FIFODATA_REGISTER COMMAND_REGISTER DIVIRQ_REGISTER FIFOLEVEL_REGISTER
       CRCRESULTL_REGISTER CRCRESULTM_REGISTER].
  rewrite app_nil_r. repeat split; reflexivity.
Qed.

(** The registers a resolved [toCard] reads, and what it took from the
    FIFO. *)
Lemma toCard_reads command data d r d' t :
  toCard spi_transfer command data d = (Ok r, d', t) ->
  reads_of FIFODATA_REGISTER t = backData r /\
  forall reg,
    ~ In reg [COMMIRQ_REGISTER; FIFOLEVEL_REGISTER; BITFRAMING_REGISTER;
              ERROR_REGISTER; CONTROL_REGISTER; FIFODATA_REGISTER] ->
    reads_of reg t = [].
Proof.
  intros H.
  apply toCard_Ok in H as (q & f & bf & ns & n & i & x & tl & -> & _ & _ & Ht).
  split.
  - rewrite !reads_of_app, reads_of_toCard_head.
    rewrite reads_of_map_read_other by discriminate.
    cbn [reads_of Z.eqb Pos.eqb app FIFODATA_REGISTER COMMIRQ_REGISTER
         FIFOLEVEL_REGISTER BITFRAMING_REGISTER].
    inversion Ht; subst; cbn [backData reads_of Z.eqb Pos.eqb app
      ERROR_REGISTER FIFODATA_REGISTER FIFOLEVEL_REGISTER CONTROL_REGISTER];
      try reflexivity.
    apply reads_of_map_read.
  - intros reg Hreg. cbn [In] in Hreg.
    assert (Hq : forall r', r' <> reg -> (r' =? reg) = false)
      by (intros r' Hr; now apply Z.eqb_neq).
    rewrite !reads_of_app, reads_of_toCard_head.
    rewrite reads_of_map_read_other by tauto.
    rewrite !Hq by tauto. cbn [app reads_of]. rewrite !Hq by tauto.
    inversion Ht; subst; cbn [reads_of app]; rewrite ?Hq by tauto;
      try reflexivity.
    apply reads_of_map_read_other. tauto.
Qed.

(** The writes of a resolved [toCard] to the FIFO and the command register. *)
Lemma toCard_writes command data d r d' t :
  toCard spi_transfer command data d = (Ok r, d', t) ->
  writes_of FIFODATA_REGISTER t = map (fun b => b mod 256) data /\
  writes_of COMMAND_REGISTER t = [PCD_IDLE; command mod 256].
Proof.
  intros H.
  apply toCard_Ok in H as (q & f & bf & ns & n & i & x & tl & -> & _ & _ & Ht).
  log_simpl.
  rewrite !(toCard_tail_no_write _ _ _ _ _ _ _ Ht).
  split; [now rewrite app_nil_r|reflexivity].
Qed.

Lemma map_mod_bytes l : Forall is_byte l -> map (fun b => b mod 256) l = l.
Proof.
  induction 1 as [|b l Hb Hl IH]; [reflexivity|].
  cbn [map]. rewrite IH. f_equal. now apply Z.mod_small.
Qed.

(** X13: [selectCard] idles the chip, appends the check byte and the CRC to
    [[SELECT, 0x70] ++ uid], transceives that frame, and answers true
    exactly when the status of the transceive is OK: neither the length nor
    the content of the card's answer is looked at. *)
Theorem selectCard_iff_status uid d b d' t :
  selectCard spi_transfer elapse uid d = (Ok b, d', t) ->
  exists d0 crc d1 t1 r t2,
    writeSPI spi_transfer COMMAND_REGISTER PCD_IDLE d
      = (Ok tt, d0, [EvWrite COMMAND_REGISTER PCD_IDLE]) /\
    calculateCRC spi_transfer elapse
      ([PICC_SELECTTAG; 0x70] ++ uid ++ [uidChecksum uid]) d0
      = (Ok crc, d1, t1) /\
    toCard spi_transfer PCD_TRANSCEIVE
      (([PICC_SELECTTAG; 0x70] ++ uid ++ [uidChecksum uid]) ++ crc) d1
      = (Ok r, d', t2) /\
    t = EvWrite COMMAND_REGISTER PCD_IDLE :: t1 ++ t2 /\
    length crc = 2%nat /\
    (b = true <-> status r = MI_OK).
Proof.
  unfold selectCard. intros H.
  apply bind_Ok in H as ([] & d0 & t0 & t' & Hw & H & ->).
  pose proof (writeSPI_Ok _ _ _ _ _ _ _ _ _ Hw) as ->.
  apply bind_Ok in H as (crc & d1 & t1 & t1' & Hcrc & H & ->).
  apply bind_Ok in H as (r & d2 & t2 & t2' & Hc & H & ->).
  apply ret_Ok in H as (-> & -> & ->).
  exists d0, crc, d1, t1, r, t2. rewrite app_nil_r.
  split; [exact Hw|]. split; [exact Hcrc|]. split; [exact Hc|].
  split; [reflexivity|]. split.
  - apply calculateCRC_frame in Hcrc as (lo & hi & -> & _). reflexivity.
  - apply Z.eqb_eq.
Qed.

(** A UID returned by [antiCollision]: four bytes, read from the FIFO
    together with a fifth that is their checksum. *)
Lemma antiCollision_Some d uid d' t :
  antiCollision spi_transfer d = (Ok (Some uid), d', t) ->
  exists bcc,
    reads_of FIFODATA_REGISTER t = uid ++ [bcc] /\
    length uid = 4%nat /\ Forall is_byte uid /\ is_byte bcc /\
    uidChecksum uid = bcc.
Proof.
  unfold antiCollision. intros H.
  apply bind_Ok in H as ([] & d0 & t0 & t' & Hw & H & ->).
  apply writeSPI_Ok in Hw as ->.
  apply bind_Ok in H as (r & d1 & t1 & t2 & Hc & H & ->).
  destruct (toCard_reads _ _ _ _ _ _ Hc) as [Hfifo _].
  destruct (Z.eqb_spec (status r) MI_OK) as [Hs|Hs]; cbn [negb] in H.
  2:{ apply ret_Ok in H as (H & _). discriminate. }
  assert (Hne : status r <> MI_ERR) by (rewrite Hs; discriminate).
  destruct (toCard_transceive_payload _ _ _ _ _ _ _ _ Hc Hne) as [_ Hbytes].
  destruct (Z.eqb_spec (Z.of_nat (length (backData r))) 5) as [Hl|Hl];
    cbn [negb] in H.
  2:{ apply ret_Ok in H as (H & _). discriminate. }
  destruct (backData r) as [|a [|b [|c [|e [|bcc [|]]]]]] eqn:Hbd;
    simpl in Hl; try lia.
  cbn [firstn JS.index nth_error JS.strict_neq JS.strict_eq JS.truthy] in H.
  destruct (Z.eqb_spec (uidChecksum [a; b; c; e]) bcc) as [Hb|Hb];
    cbn [negb] in H; apply ret_Ok in H as (H & _ & ->); [|discriminate].
  inversion H; subst uid.
  inversion Hbytes as [|? ? Ba Hb1]; subst. inversion Hb1 as [|? ? Bb Hb2]; subst.
  inversion Hb2 as [|? ? Bc Hb3]; subst. inversion Hb3 as [|? ? Be Hb4]; subst.
  inversion Hb4 as [|? ? Bbcc _]; subst.
  exists (uidChecksum [a; b; c; e]).
  cbn [reads_of app]. rewrite app_nil_r, Hfifo.
  split; [reflexivity|]. split; [reflexivity|].
  split; [repeat (apply Forall_cons; [assumption|]); apply Forall_nil|].
  split; [assumption|reflexivity].
Qed.

(** X14: the frame [selectCard] sends for a UID that [antiCollision] returned
    is [[SELECT, 0x70]] followed by the five bytes the anti-collision read
    from the FIFO (the UID and the card's own check byte) and the two CRC
    result bytes; the same seven bytes were fed to the CRC coprocessor
    before. *)
Theorem selectCard_echoes_antiCollision d uid d1 t1 d2 b d3 t2 :
  antiCollision spi_transfer d = (Ok (Some uid), d1, t1) ->
  selectCard spi_transfer elapse uid d2 = (Ok b, d3, t2) ->
  exists lo hi,
    reads_of CRCRESULTL_REGISTER t2 = [lo] /\
    reads_of CRCRESULTM_REGISTER t2 = [hi] /\
    writes_of FIFODATA_REGISTER t2
    = ([PICC_SELECTTAG; 0x70] ++ reads_of FIFODATA_REGISTER t1)
      ++ ([PICC_SELECTTAG; 0x70] ++ reads_of FIFODATA_REGISTER t1)
      ++ [lo; hi].
Proof.
  intros Ha Hsel.
  apply antiCollision_Some in Ha as (bcc & -> & Hlen & Hbytes & Hbcc & Hck).
  unfold selectCard in Hsel.
  apply bind_Ok in Hsel as ([] & d0 & t0 & t' & Hw & H & ->).
  apply writeSPI_Ok in Hw as ->.
  apply bind_Ok in H as (crc & d4 & t3 & t3' & Hcrc & H & ->).
  apply bind_Ok in H as (r & d5 & t4 & t4' & Hc & H & ->).
  apply ret_Ok in H as (_ & _ & ->). rewrite app_nil_r.
  apply calculateCRC_frame in Hcrc
    as (lo & hi & -> & Hlo & Hhi & Hcw & _ & Hrl & Hrm & _).
  destruct (toCard_reads _ _ _ _ _ _ Hc) as [_ Hnone].
  destruct (toCard_writes _ _ _ _ _ _ Hc) as [Htw _].
  exists lo, hi.
  change (EvWrite COMMAND_REGISTER (JS.uint8 PCD_IDLE) :: t3 ++ t4)
    with ([EvWrite COMMAND_REGISTER (JS.uint8 PCD_IDLE)] ++ t3 ++ t4).
  rewrite !reads_of_app, !writes_of_app, Hrl, Hrm, Hcw, Htw.
  rewrite !Hnone by (cbn [In]; intros [E|[E|[E|[E|[E|[E|[]]]]]]]; discriminate).
  cbn [reads_of writes_of Z.eqb Pos.eqb COMMAND_REGISTER FIFODATA_REGISTER].
  rewrite Hck. rewrite ?app_nil_r. cbn [app].
  assert (Hframe : Forall is_byte ([PICC_SELECTTAG; 0x70] ++ uid ++ [bcc])).
  { apply Forall_cons; [unfold is_byte, PICC_SELECTTAG; lia|].
    apply Forall_cons; [unfold is_byte; lia|].
    apply Forall_app. split; [assumption|].
    apply Forall_cons; [assumption|apply Forall_nil]. }
  assert (Hsent : Forall is_byte
            (([PICC_SELECTTAG; 0x70] ++ uid ++ [bcc]) ++ [lo; hi])).
  { apply Forall_app. split; [assumption|].
    repeat (apply Forall_cons; [assumption|]). apply Forall_nil. }
  cbn [app] in Hframe, Hsent.
  rewrite (map_mod_bytes _ Hframe), (map_mod_bytes _ Hsent).
  split; [reflexivity|]. split; reflexivity.
Qed.

(** X16: [readSector] feeds [[READ, sector mod 256]] to the CRC coprocessor and
    then transmits those two bytes followed by the low and high CRC result
    bytes it read; sector numbers 256 apart put the same bytes on the
    bus. *)
Theorem readSector_frame sector d res d' t :
  readSector spi_transfer elapse sector d = (Ok res, d', t) ->
  exists lo hi,
    reads_of CRCRESULTL_REGISTER t = [lo] /\
    reads_of CRCRESULTM_REGISTER t = [hi] /\
    writes_of FIFODATA_REGISTER t
    = [PICC_READ; sector mod 256; PICC_READ; sector mod 256; lo; hi] /\
    writes_of COMMAND_REGISTER t
    = [PCD_IDLE; PCD_CALCCRC; PCD_IDLE; PCD_TRANSCEIVE].
Proof.
  unfold readSector. intros H.
  apply bind_Ok in H as (crc & d1 & t1 & t1' & Hcrc & H & ->).
  apply bind_Ok in H as (r & d2 & t2 & t2' & Hc & H & ->).
  assert (Ht' : t2' = []).
  { destruct (negb (status r =? MI_OK)); now apply ret_Ok in H as (_ & _ & ->). }
  subst t2'. rewrite app_nil_r.
  apply calculateCRC_frame in Hcrc
    as (lo & hi & -> & Hlo & Hhi & Hcw & Hcc & Hrl & Hrm & _).
  destruct (toCard_reads _ _ _ _ _ _ Hc) as [_ Hnone].
  destruct (toCard_writes _ _ _ _ _ _ Hc) as [Htw Htc].
  exists lo, hi.
  rewrite !reads_of_app, !writes_of_app, Hrl, Hrm, Hcw, Hcc, Htw, Htc.
  rewrite !Hnone by (cbn [In]; intros [E|[E|[E|[E|[E|[E|[]]]]]]]; discriminate).
  cbn [map app].
  unfold is_byte in Hlo, Hhi. rewrite (Z.mod_small lo), (Z.mod_small hi) by lia.
  repeat split; reflexivity.
Qed.

(** The two acknowledgment tests of [_writeSector] on a transceive result. *)
Lemma write_nak_tests data d r d' t :
  toCard spi_transfer PCD_TRANSCEIVE data d = (Ok r, d', t) ->
  write_nak_phase1 r
  = negb (status r =? MI_OK) || negb (backLen r =? 4)
    || Z.odd (hd 0 (backData r)) /\
  write_nak_phase2 r
  = negb (status r =? MI_OK) || negb (backLen r =? 4)
    || negb (Z.land (hd 0 (backData r)) 0x0F =? 0x0A).
Proof.
  intros H.
  destruct (Z.eqb_spec (status r) MI_OK) as [Hs|Hs].
  - assert (Hne : status r <> MI_ERR) by (rewrite Hs; discriminate).
    destruct (toCard_transceive_payload _ _ _ _ _ _ _ _ H Hne) as [Hlen Hb].
    destruct r as [st bd len]. cbn [status backData backLen] in *.
    destruct bd as [|b rest]; [simpl in Hlen; lia|].
    inversion Hb as [|? ? Hb0 _]; subst.
    rewrite write_nak_phase1_spec, write_nak_phase2_spec by assumption.
    split; reflexivity.
  - unfold write_nak_phase1, write_nak_phase2.
    apply Z.eqb_neq in Hs. rewrite Hs. split; reflexivity.
Qed.

(** X15: [writeSector] transceives [[WRITE, sector]] with its CRC.  When that
    answer has a status other than OK, a bit length other than 4, or an odd
    first byte, it answers false and sends nothing more.  Otherwise it
    transceives the data with its CRC, and answers true exactly when that
    second answer has status OK, bit length 4 and a first byte whose low
    nibble is 0xA. *)
Theorem writeSector_two_phases sector data d b d' t :
  writeSector spi_transfer elapse sector data d = (Ok b, d', t) ->
  exists crc1 d1 t1 r1 d2 t2,
    calculateCRC spi_transfer elapse [PICC_WRITE; sector] d = (Ok crc1, d1, t1) /\
    toCard spi_transfer PCD_TRANSCEIVE ([PICC_WRITE; sector] ++ crc1) d1
      = (Ok r1, d2, t2) /\
    (((status r1 <> MI_OK \/ backLen r1 <> 4 \/
       Z.odd (hd 0 (backData r1)) = true) /\
      b = false /\ t = t1 ++ t2) \/
     (status r1 = MI_OK /\ backLen r1 = 4 /\
      Z.odd (hd 0 (backData r1)) = false /\
      exists crc2 d3 t3 r2 t4,
        calculateCRC spi_transfer elapse data d2 = (Ok crc2, d3, t3) /\
        toCard spi_transfer PCD_TRANSCEIVE (data ++ crc2) d3 = (Ok r2, d', t4) /\
        t = t1 ++ t2 ++ t3 ++ t4 /\
        (b = true <->
         status r2 = MI_OK /\ backLen r2 = 4 /\
         Z.land (hd 0 (backData r2)) 0x0F = 0x0A))).
Proof.
  unfold writeSector. intros H.
  apply bind_Ok in H as (crc1 & d1 & t1 & t1' & Hcrc1 & H & ->).
  apply bind_Ok in H as (r1 & d2 & t2 & t2' & Hc1 & H & ->).
  exists crc1, d1, t1, r1, d2, t2.
  split; [exact Hcrc1|]. split; [exact Hc1|].
  destruct (write_nak_tests _ _ _ _ _ Hc1) as [E1 _]. rewrite E1 in H.
  destruct (Z.eqb_spec (status r1) MI_OK) as [Hs|Hs]; cbn [negb orb] in H.
  2:{ apply ret_Ok in H as (-> & _ & ->). rewrite app_nil_r. left. auto. }
  destruct (Z.eqb_spec (backLen r1) 4) as [Hl|Hl]; cbn [negb orb] in H.
  2:{ apply ret_Ok in H as (-> & _ & ->). rewrite app_nil_r. left. auto. }
  destruct (Z.odd (hd 0 (backData r1))) eqn:Hodd.
  { apply ret_Ok in H as (-> & _ & ->). rewrite app_nil_r. left. auto. }
  right. split; [assumption|]. split; [assumption|]. split; [reflexivity|].
  apply bind_Ok in H as (crc2 & d3 & t3 & t3' & Hcrc2 & H & ->).
  apply bind_Ok in H as (r2 & d4 & t4 & t4' & Hc2 & H & ->).
  exists crc2, d3, t3, r2, t4.
  destruct (write_nak_tests _ _ _ _ _ Hc2) as [_ E2]. rewrite E2 in H.
  assert (Hb : b = negb (negb (status r2 =? MI_OK) || negb (backLen r2 =? 4)
                          || negb (Z.land (hd 0 (backData r2)) 15 =? 10))
               /\ d4 = d' /\ t4' = []).
  { destruct (negb (status r2 =? MI_OK) || negb (backLen r2 =? 4)
              || negb (Z.land (hd 0 (backData r2)) 15 =? 10));
      apply ret_Ok in H as (-> & -> & ->); auto. }
  destruct Hb as (-> & -> & ->). rewrite app_nil_r.
  split; [exact Hcrc2|]. split; [exact Hc2|]. split; [reflexivity|].
  destruct (Z.eqb_spec (status r2) MI_OK);
    destruct (Z.eqb_spec (backLen r2) 4);
    destruct (Z.eqb_spec (Z.land (hd 0 (backData r2)) 15) 10);
    cbn [negb orb]; split; try discriminate; try tauto; auto.
Qed.

(** ** Antenna and reset *)

(** X17: [antennaOn] reads the TX control register and always writes it back
    with the two driver bits set: the guard [~(temp[1] & 0x03)] is true for
    every value read, also when both bits are set already. *)
Theorem antennaOn_always_writes d u d' t :
  antennaOn spi_transfer d = (Ok u, d', t) ->
  exists x,
    is_byte x /\
    t = [EvRead TXCONTROL_REGISTER x;
         EvWrite TXCONTROL_REGISTER (Z.lor x 0x03)].
Proof.
  unfold antennaOn. intros H.
  apply bind_Ok in H as (x & d1 & t1 & t2 & Hr & H & ->).
  apply readSPI_Ok in Hr as [Hx ->].
  change (JS.truthy (JS.bnot (JS.band (number_member x 1) (JS.Num 3))))
    with true in H.
  apply writeSPI_Ok in H as ->.
  exists x. split; [assumption|].
  rewrite set_mask_value by (assumption || unfold is_byte; lia).
  reflexivity.
Qed.

(** X18: [resetPCD] issues the soft reset, then writes the timer mode, the
    prescaler, the reload value (low byte 30, high byte 0), the ASK
    modulation and the mode register, each once and in that order, and ends
    by switching the antenna drivers on; the TX control register is the
    only register it reads. *)
Theorem resetPCD_log d u d' t :
  resetPCD spi_transfer d = (Ok u, d', t) ->
  exists x,
    is_byte x /\
    t = [EvWrite COMMAND_REGISTER PCD_RESET;
         EvWrite TMODE_REGISTER 0x8D;
         EvWrite TPRESCALER_REGISTER 0x3E;
         EvWrite TRELOAD_LOW_REGISTER 30;
         EvWrite TRELOAD_HIGH_REGISTER 0;
         EvWrite TXASK_REGISTER 0x40;
         EvWrite MODE_REGISTER 0x3D;
         EvRead TXCONTROL_REGISTER x;
         EvWrite TXCONTROL_REGISTER (Z.lor x 0x03)].
Proof.
  unfold resetPCD. intros H.
  do 7 (apply bind_Ok in H as (? & ? & ? & ? & Hw & H & ->);
        apply writeSPI_Ok in Hw as ->).
  unfold antennaOn in H.
  apply bind_Ok in H as (tx & dr & tr & tw & Hr & H & ->).
  apply readSPI_Ok in Hr as [Hx ->].
  change (JS.truthy (JS.bnot (JS.band (number_member tx 1) (JS.Num 3))))
    with true in H.
  apply writeSPI_Ok in H as ->.
  exists tx. split; [assumption|].
  rewrite set_mask_value by (assumption || unfold is_byte; lia).
  reflexivity.
Qed.

End MoreFacts.

(** ** Writing a register and reading it back *)

Lemma memory_decode m :
  0 <= m < 64 ->
  Z.testbit (2 * m) 7 = false /\ Z.land (Z.shiftr (2 * m) 1) 0x3F = m /\
  Z.testbit (2 * m + 128) 7 = true /\
  Z.land (Z.shiftr (2 * m + 128) 1) 0x3F = m.
Proof.
  intros Hm.
  assert (H : forall z, 0 <= z < Z.of_nat 64 ->
            (negb (Z.testbit (2 * z) 7)
             && (Z.land (Z.shiftr (2 * z) 1) 0x3F =? z)
             && Z.testbit (2 * z + 128) 7
             && (Z.land (Z.shiftr (2 * z + 128) 1) 0x3F =? z)) = true).
  { apply below_forallb. vm_compute. reflexivity. }
  specialize (H m ltac:(simpl; lia)).
  apply andb_true_iff in H as [H H4]. apply andb_true_iff in H as [H H3].
  apply andb_true_iff in H as [H1 H2].
  apply negb_true_iff in H1. apply Z.eqb_eq in H2, H4. auto.
Qed.

(** X2: on a chip whose registers are plain memory addressed by bits 6..1 of
    the address byte, a [writeSPI] followed by a [readSPI] of the same
    register number (or of one that differs by a multiple of 64) yields the
    value written, modulo 256; a [readSPI] of any other register yields what
    that register held before the write. *)
Theorem memory_write_then_read register value regs :
  exists regs1,
    writeSPI memory_transfer register value regs
      = (Ok tt, regs1, [EvWrite register (value mod 256)]) /\
    forall register',
      (register' mod 64 = register mod 64 ->
       readSPI memory_transfer register' regs1
         = (Ok (value mod 256), regs1, [EvRead register' (value mod 256)])) /\
      (register' mod 64 <> register mod 64 ->
       fst (fst (readSPI memory_transfer register' regs1))
         = fst (fst (readSPI memory_transfer register' regs))).
Proof.
  pose proof (Z.mod_pos_bound register 64 ltac:(lia)) as Hm.
  destruct (memory_decode _ Hm) as (Hw7 & Hwr & _ & _).
  exists ((register mod 64, value mod 256) :: regs).
  split.
  - unfold writeSPI. rewrite write_address. unfold memory_transfer.
    cbn [fst snd]. rewrite Hw7, Hwr. reflexivity.
  - intros register'.
    pose proof (Z.mod_pos_bound register' 64 ltac:(lia)) as Hm'.
    destruct (memory_decode _ Hm') as (_ & _ & Hr7 & Hrr).
    unfold readSPI. rewrite read_address. unfold memory_transfer.
    cbn [fst snd]. rewrite Hr7, Hrr.
    unfold regs_of. cbn [find fst snd]. split.
    + intros E. rewrite E, Z.eqb_refl. cbn [snd].
      unfold JS.uint8. rewrite Z.mod_mod by lia. reflexivity.
    + intros E. apply not_eq_sym in E. apply Z.eqb_neq in E. rewrite E.
      reflexivity.
Qed.

(** ** Printing a UID *)

Lemma string_append_assoc (a b c : String.string) :
  String.append (String.append a b) c = String.append a (String.append b c).
Proof. induction a as [|ch a IH]; simpl; [reflexivity|now rewrite IH]. Qed.

Lemma string_length_append (a b : String.string) :
  String.length (String.append a b) = (String.length a + String.length b)%nat.
Proof. induction a as [|ch a IH]; simpl; [reflexivity|now rewrite IH]. Qed.

Lemma hex_pair_byte b :
  is_byte b ->
  exists c1 c2 h l,
    Examples.hex_pair b = String.String c1 (String.String c2 String.EmptyString) /\
    Examples.hex_value c1 = Some h /\ Examples.hex_value c2 = Some l /\
    16 * h + l = b.
Proof.
  intros Hb.
  assert (H : forall z, 0 <= z < Z.of_nat 256 -> Examples.hex_pair_ok z = true).
  { apply below_forallb. vm_compute. reflexivity. }
  specialize (H b ltac:(unfold is_byte in Hb; simpl; lia)).
  unfold Examples.hex_pair_ok in H.
  destruct (Examples.hex_pair b) as [|c1 [|c2 [|]]]; try discriminate.
  destruct (Examples.hex_value c1) as [h|] eqn:H1; try discriminate.
  destruct (Examples.hex_value c2) as [l|] eqn:H2; try discriminate.
  apply Z.eqb_eq in H. exists c1, c2, h, l.
  split; [reflexivity|]. split; [exact H1|]. split; [exact H2|exact H].
Qed.

Lemma uidToString_from uid : forall s,
  fold_left Examples.uid_step uid s
  = String.append s (Examples.uidToString uid).
Proof.
  unfold Examples.uidToString.
  induction uid as [|b uid IH]; intros s; cbn [fold_left].
  - induction s as [|ch s IHs]; simpl; [reflexivity|now rewrite <- IHs].
  - rewrite IH, (IH (Examples.uid_step _ b)).
    unfold Examples.uid_step. rewrite !string_append_assoc. reflexivity.
Qed.

Lemma uidToString_cons b uid :
  Examples.uidToString (b :: uid)
  = String.append (Examples.hex_pair b) (Examples.uidToString uid).
Proof.
  unfold Examples.uidToString at 1. cbn [fold_left].
  rewrite uidToString_from. reflexivity.
Qed.

(** X19: for an array of bytes [uidToString] prints exactly two hexadecimal
    digits per byte, and reading the digits back pair by pair gives the
    array again; so two different arrays of bytes never print alike. *)
Theorem uidToString_round_trip uid :
  Forall is_byte uid ->
  String.length (Examples.uidToString uid) = (2 * length uid)%nat /\
  Examples.parse_uid (Examples.uidToString uid) = Some uid /\
  forall uid', Forall is_byte uid' ->
    Examples.uidToString uid' = Examples.uidToString uid -> uid' = uid.
Proof.
  intros Hu.
  assert (Hparse : forall l, Forall is_byte l ->
            String.length (Examples.uidToString l) = (2 * length l)%nat /\
            Examples.parse_uid (Examples.uidToString l) = Some l).
  { induction 1 as [|b l Hb Hl [IHlen IHparse]]; [split; reflexivity|].
    rewrite uidToString_cons.
    destruct (hex_pair_byte b Hb) as (c1 & c2 & h & lo & -> & H1 & H2 & E).
    cbn [String.append String.length Examples.parse_uid].
    rewrite IHlen, H1, H2, IHparse, E. split; [simpl; lia|reflexivity]. }
  destruct (Hparse uid Hu) as [Hlen Hp].
  split; [exact Hlen|]. split; [exact Hp|].
  intros uid' Hu' E.
  destruct (Hparse uid' Hu') as [_ Hp']. rewrite E, Hp in Hp'. congruence.
Qed.

(** ** Concrete runs for the further facts *)

(** Flushing the FIFO sets bit 7 of the level register. *)
Lemma setBitMask_sets_only_mask_witness :
  is_byte 0x80 /\
  setBitMask atqa_chip FIFOLEVEL_REGISTER 0x80 [] = (Ok tt, [], snd (setBitMask atqa_chip FIFOLEVEL_REGISTER 0x80 [])) /\
  (exists x w,
     snd (setBitMask atqa_chip FIFOLEVEL_REGISTER 0x80 []) = [EvRead FIFOLEVEL_REGISTER x; EvWrite FIFOLEVEL_REGISTER w] /\
     is_byte x /\ is_byte w /\
     forall k, Z.testbit w k = Z.testbit x k || Z.testbit 0x80 k).
Proof.
  split; [unfold is_byte; lia|]. split; [vm_compute; reflexivity|].
  apply (setBitMask_sets_only_mask _ _ atqa_chip FIFOLEVEL_REGISTER 0x80 [] tt []);
    [unfold is_byte; lia|vm_compute; reflexivity].
Defined.

(** Clearing the CRC-done flag. *)
Lemma clearBitMask_clears_only_mask_witness :
  is_byte 0x04 /\
  clearBitMask ack_chip DIVIRQ_REGISTER 0x04 [] = (Ok tt, [], snd (clearBitMask ack_chip DIVIRQ_REGISTER 0x04 [])) /\
  (exists x w,
     snd (clearBitMask ack_chip DIVIRQ_REGISTER 0x04 []) = [EvRead DIVIRQ_REGISTER x; EvWrite DIVIRQ_REGISTER w] /\
     is_byte x /\ is_byte w /\
     forall k, Z.testbit w k = Z.testbit x k && negb (Z.testbit 0x04 k)).
Proof.
  split; [unfold is_byte; lia|]. split; [vm_compute; reflexivity|].
  apply (clearBitMask_clears_only_mask _ _ ack_chip DIVIRQ_REGISTER 0x04 [] tt []);
    [unfold is_byte; lia|vm_compute; reflexivity].
Defined.

(** The crypto unit is on and gets switched off. *)
Lemma stopCrypto1_clears_crypto_bit_witness :
  stopCrypto1 auth_chip [] = (Ok tt, [], snd (stopCrypto1 auth_chip [])) /\
  (exists x w,
     snd (stopCrypto1 auth_chip []) = [EvRead STATUS2_REGISTER x; EvWrite STATUS2_REGISTER w] /\
     Z.testbit w 3 = false /\
     forall k, k <> 3 -> Z.testbit w k = Z.testbit x k).
Proof.
  split; [vm_compute; reflexivity|].
  apply (stopCrypto1_clears_crypto_bit _ _ auth_chip [] tt []).
  vm_compute; reflexivity.
Defined.

(** Five bytes: the fifth plays no part. *)
Lemma uidChecksum_first_four_witness :
  Forall is_byte [0x01; 0x02; 0x04; 0x08; 0x0F] /\
  (uidChecksum [0x01; 0x02; 0x04; 0x08; 0x0F] = fold_left Z.lxor (firstn 4 [0x01; 0x02; 0x04; 0x08; 0x0F]) 0 /\
   is_byte (uidChecksum [0x01; 0x02; 0x04; 0x08; 0x0F]) /\
   forall extra, (4 <= length [0x01; 0x02; 0x04; 0x08; 0x0F])%nat ->
                 uidChecksum ([0x01; 0x02; 0x04; 0x08; 0x0F] ++ extra) = uidChecksum [0x01; 0x02; 0x04; 0x08; 0x0F]).
Proof.
  assert (H : Forall is_byte [0x01; 0x02; 0x04; 0x08; 0x0F])
    by (repeat (apply Forall_cons; [unfold is_byte; lia|]); apply Forall_nil).
  split; [exact H|]. exact (uidChecksum_first_four _ H).
Defined.

(** Receiver and timer interrupt together: NO_TAG. *)
Lemma toCard_no_tag_only_transceive_witness :
  toCard no_tag_chip PCD_TRANSCEIVE [PICC_REQIDL] [0x5A] = (Ok (mkResult MI_NOTAGERR [0x5A] 8), [], snd (toCard no_tag_chip PCD_TRANSCEIVE [PICC_REQIDL] [0x5A])) /\
  ((status (mkResult MI_NOTAGERR [0x5A] 8) = MI_OK \/ status (mkResult MI_NOTAGERR [0x5A] 8) = MI_NOTAGERR \/ status (mkResult MI_NOTAGERR [0x5A] 8) = MI_ERR) /\
   (status (mkResult MI_NOTAGERR [0x5A] 8) = MI_NOTAGERR -> PCD_TRANSCEIVE = PCD_TRANSCEIVE) /\
   (PCD_TRANSCEIVE = PCD_TRANSCEIVE -> status (mkResult MI_NOTAGERR [0x5A] 8) <> MI_ERR ->
    (status (mkResult MI_NOTAGERR [0x5A] 8) = MI_NOTAGERR <->
     Z.land (last (reads_of COMMIRQ_REGISTER (snd (toCard no_tag_chip PCD_TRANSCEIVE [PICC_REQIDL] [0x5A]))) 0) 0x01 <> 0))).
Proof.
  split; [vm_compute; reflexivity|].
  apply (toCard_no_tag_only_transceive _ _ no_tag_chip PCD_TRANSCEIVE [PICC_REQIDL]
           [0x5A] (mkResult MI_NOTAGERR [0x5A] 8) []).
  vm_compute; reflexivity.
Defined.

(** Only the timer interrupt: all 2000 polls are used. *)
Lemma toCard_poll_budget_witness :
  toCard timer_chip PCD_TRANSCEIVE [PICC_REQIDL] [] = (Ok (mkResult MI_ERR [] 0), [], snd (toCard timer_chip PCD_TRANSCEIVE [PICC_REQIDL] [])) /\
  (exists q ns,
     reads_of COMMIRQ_REGISTER (snd (toCard timer_chip PCD_TRANSCEIVE [PICC_REQIDL] [])) = q :: ns /\
     (1 <= length ns <= 2000)%nat /\
     (length ns = 2000%nat ->
      (mkResult MI_ERR [] 0) = mkResult MI_ERR [] 0 /\
      reads_of ERROR_REGISTER (snd (toCard timer_chip PCD_TRANSCEIVE [PICC_REQIDL] [])) = []) /\
     ((length ns < 2000)%nat ->
      Z.land (last ns 0) (snd (irq_config PCD_TRANSCEIVE)) <> 0 /\
      exists ev, reads_of ERROR_REGISTER (snd (toCard timer_chip PCD_TRANSCEIVE [PICC_REQIDL] [])) = [ev])).
Proof.
  split; [vm_compute; reflexivity|].
  apply (toCard_poll_budget _ _ timer_chip PCD_TRANSCEIVE [PICC_REQIDL] []
           (mkResult MI_ERR [] 0) []).
  vm_compute; reflexivity.
Defined.

(** An element above 255 goes out modulo 256. *)
Lemma toCard_transmits_data_witness :
  toCard atqa_chip PCD_TRANSCEIVE [PICC_REQIDL; 0x1FF] [0x04; 0x00] = (Ok (mkResult MI_OK [0x04; 0x00] 16), [], snd (toCard atqa_chip PCD_TRANSCEIVE [PICC_REQIDL; 0x1FF] [0x04; 0x00])) /\
  (writes_of FIFODATA_REGISTER (snd (toCard atqa_chip PCD_TRANSCEIVE [PICC_REQIDL; 0x1FF] [0x04; 0x00]))
     = map (fun b => b mod 256) [PICC_REQIDL; 0x1FF] /\
   writes_of COMMAND_REGISTER (snd (toCard atqa_chip PCD_TRANSCEIVE [PICC_REQIDL; 0x1FF] [0x04; 0x00])) = [PCD_IDLE; PCD_TRANSCEIVE mod 256] /\
   writes_of COMMIEN_REGISTER (snd (toCard atqa_chip PCD_TRANSCEIVE [PICC_REQIDL; 0x1FF] [0x04; 0x00]))
     = [fst (irq_config PCD_TRANSCEIVE) + 0x80]).
Proof.
  split; [vm_compute; reflexivity|].
  apply (toCard_transmits_data _ _ atqa_chip PCD_TRANSCEIVE [PICC_REQIDL; 0x1FF]
           [0x04; 0x00] (mkResult MI_OK [0x04; 0x00] 16) []).
  vm_compute; reflexivity.
Defined.

(** A transceive: start-send set once, then cleared. *)
Lemma toCard_ends_transmission_witness :
  toCard atqa_chip PCD_TRANSCEIVE [PICC_REQIDL] [0x04; 0x00] = (Ok (mkResult MI_OK [0x04; 0x00] 16), [], snd (toCard atqa_chip PCD_TRANSCEIVE [PICC_REQIDL] [0x04; 0x00])) /\
  (exists started stopped,
     writes_of BITFRAMING_REGISTER (snd (toCard atqa_chip PCD_TRANSCEIVE [PICC_REQIDL] [0x04; 0x00])) = started ++ [stopped] /\
     Z.testbit stopped 7 = false /\
     (PCD_TRANSCEIVE <> PCD_TRANSCEIVE -> started = []) /\
     (PCD_TRANSCEIVE = PCD_TRANSCEIVE ->
      exists w, started = [w] /\ Z.testbit w 7 = true)).
Proof.
  split; [vm_compute; reflexivity|].
  apply (toCard_ends_transmission _ _ atqa_chip PCD_TRANSCEIVE [PICC_REQIDL]
           [0x04; 0x00] (mkResult MI_OK [0x04; 0x00] 16) []).
  vm_compute; reflexivity.
Defined.

(** Two bytes in the FIFO, no stray bits: 16 bits. *)
Lemma toCard_bit_length_in_last_byte_witness :
  toCard atqa_chip PCD_TRANSCEIVE [PICC_REQIDL] [0x04; 0x00] = (Ok (mkResult MI_OK [0x04; 0x00] 16), [], snd (toCard atqa_chip PCD_TRANSCEIVE [PICC_REQIDL] [0x04; 0x00])) /\
  status (mkResult MI_OK [0x04; 0x00] 16) <> MI_ERR /\
  reads_of FIFOLEVEL_REGISTER (snd (toCard atqa_chip PCD_TRANSCEIVE [PICC_REQIDL] [0x04; 0x00])) = [2; 2] /\
  1 <= 2 <= 16 /\
  (Z.of_nat (length (backData (mkResult MI_OK [0x04; 0x00] 16))) = 2 /\
   8 * (2 - 1) < backLen (mkResult MI_OK [0x04; 0x00] 16) <= 8 * 2).
Proof.
  split; [vm_compute; reflexivity|]. split; [vm_compute; discriminate|].
  split; [vm_compute; reflexivity|]. split; [lia|].
  apply (toCard_bit_length_in_last_byte _ _ atqa_chip [PICC_REQIDL] [0x04; 0x00]
           (mkResult MI_OK [0x04; 0x00] 16) [] (snd (toCard atqa_chip PCD_TRANSCEIVE [PICC_REQIDL] [0x04; 0x00])) 2 2);
    [vm_compute; reflexivity|vm_compute; discriminate|vm_compute; reflexivity|lia].
Defined.

(** An empty FIFO with three stray bits: a bit length of -5. *)
Lemma toCard_bit_length_out_of_range_witness :
  toCard stray_bits_chip PCD_TRANSCEIVE [PICC_REQIDL] [0x5A] = (Ok (mkResult MI_OK [0x5A] (-5)), [], snd (toCard stray_bits_chip PCD_TRANSCEIVE [PICC_REQIDL] [0x5A])) /\
  status (mkResult MI_OK [0x5A] (-5)) <> MI_ERR /\
  reads_of FIFOLEVEL_REGISTER (snd (toCard stray_bits_chip PCD_TRANSCEIVE [PICC_REQIDL] [0x5A])) = [0; 0] /\
  reads_of CONTROL_REGISTER (snd (toCard stray_bits_chip PCD_TRANSCEIVE [PICC_REQIDL] [0x5A])) = [3] /\
  ((16 < 0 ->
    length (backData (mkResult MI_OK [0x5A] (-5))) = 16%nat /\ 8 * 16 < backLen (mkResult MI_OK [0x5A] (-5))) /\
   (0 = 0 ->
    length (backData (mkResult MI_OK [0x5A] (-5))) = 1%nat /\
    (Z.land 3 0x07 = 0 -> backLen (mkResult MI_OK [0x5A] (-5)) = 0) /\
    (Z.land 3 0x07 <> 0 ->
     backLen (mkResult MI_OK [0x5A] (-5)) = Z.land 3 0x07 - 8 /\ backLen (mkResult MI_OK [0x5A] (-5)) < 0))).
Proof.
  split; [vm_compute; reflexivity|]. split; [vm_compute; discriminate|].
  split; [vm_compute; reflexivity|]. split; [vm_compute; reflexivity|].
  apply (toCard_bit_length_out_of_range _ _ stray_bits_chip [PICC_REQIDL] [0x5A]
           (mkResult MI_OK [0x5A] (-5)) [] (snd (toCard stray_bits_chip PCD_TRANSCEIVE [PICC_REQIDL] [0x5A])) 0 0 3);
    [vm_compute; reflexivity|vm_compute; discriminate
    |vm_compute; reflexivity|vm_compute; reflexivity].
Defined.

(** The card answers the select frame. *)
Lemma selectCard_iff_status_witness :
  selectCard uid_chip mock_elapse [0x01; 0x02; 0x04; 0x08] [] = (Ok true, [], snd (selectCard uid_chip mock_elapse [0x01; 0x02; 0x04; 0x08] [])) /\
  (exists d0 crc d1 t1 r t2,
     writeSPI uid_chip COMMAND_REGISTER PCD_IDLE []
       = (Ok tt, d0, [EvWrite COMMAND_REGISTER PCD_IDLE]) /\
     calculateCRC uid_chip mock_elapse ([PICC_SELECTTAG; 0x70] ++ [0x01; 0x02; 0x04; 0x08] ++ [uidChecksum [0x01; 0x02; 0x04; 0x08]]) d0 = (Ok crc, d1, t1) /\
     toCard uid_chip PCD_TRANSCEIVE (([PICC_SELECTTAG; 0x70] ++ [0x01; 0x02; 0x04; 0x08] ++ [uidChecksum [0x01; 0x02; 0x04; 0x08]]) ++ crc) d1 = (Ok r, [], t2) /\
     snd (selectCard uid_chip mock_elapse [0x01; 0x02; 0x04; 0x08] []) = EvWrite COMMAND_REGISTER PCD_IDLE :: t1 ++ t2 /\
     length crc = 2%nat /\
     (true = true <-> status r = MI_OK)).
Proof.
  split; [vm_compute; reflexivity|].
  apply selectCard_iff_status. vm_compute; reflexivity.
Defined.

(** Anti-collision, then select with the UID it returned. *)
Lemma selectCard_echoes_antiCollision_witness :
  antiCollision uid_chip [0x01; 0x02; 0x04; 0x08; 0x0F] = (Ok (Some [0x01; 0x02; 0x04; 0x08]), [], snd (antiCollision uid_chip [0x01; 0x02; 0x04; 0x08; 0x0F])) /\
  selectCard uid_chip mock_elapse [0x01; 0x02; 0x04; 0x08] [] = (Ok true, [], snd (selectCard uid_chip mock_elapse [0x01; 0x02; 0x04; 0x08] [])) /\
  (exists lo hi,
     reads_of CRCRESULTL_REGISTER (snd (selectCard uid_chip mock_elapse [0x01; 0x02; 0x04; 0x08] [])) = [lo] /\
     reads_of CRCRESULTM_REGISTER (snd (selectCard uid_chip mock_elapse [0x01; 0x02; 0x04; 0x08] [])) = [hi] /\
     writes_of FIFODATA_REGISTER (snd (selectCard uid_chip mock_elapse [0x01; 0x02; 0x04; 0x08] []))
     = ([PICC_SELECTTAG; 0x70] ++ reads_of FIFODATA_REGISTER (snd (antiCollision uid_chip [0x01; 0x02; 0x04; 0x08; 0x0F])))
       ++ ([PICC_SELECTTAG; 0x70] ++ reads_of FIFODATA_REGISTER (snd (antiCollision uid_chip [0x01; 0x02; 0x04; 0x08; 0x0F])))
       ++ [lo; hi]).
Proof.
  split; [vm_compute; reflexivity|]. split; [vm_compute; reflexivity|].
  apply (selectCard_echoes_antiCollision _ _ uid_chip mock_elapse
           [0x01; 0x02; 0x04; 0x08; 0x0F] [0x01; 0x02; 0x04; 0x08] [] (snd (antiCollision uid_chip [0x01; 0x02; 0x04; 0x08; 0x0F])) [] true []);
    vm_compute; reflexivity.
Defined.

(** Both frames are acknowledged with 0xA. *)
Lemma writeSector_two_phases_witness :
  writeSector ack_chip mock_elapse 8 [0; 1; 2; 3; 4; 5; 6; 7; 8; 9; 10; 11; 12; 13; 14; 15] [0x0A; 0x0A] = (Ok true, [], snd (writeSector ack_chip mock_elapse 8 [0; 1; 2; 3; 4; 5; 6; 7; 8; 9; 10; 11; 12; 13; 14; 15] [0x0A; 0x0A])) /\
  (exists crc1 d1 t1 r1 d2 t2,
     calculateCRC ack_chip mock_elapse [PICC_WRITE; 8] [0x0A; 0x0A]
       = (Ok crc1, d1, t1) /\
     toCard ack_chip PCD_TRANSCEIVE ([PICC_WRITE; 8] ++ crc1) d1
       = (Ok r1, d2, t2) /\
     (((status r1 <> MI_OK \/ backLen r1 <> 4 \/
        Z.odd (hd 0 (backData r1)) = true) /\
       true = false /\ snd (writeSector ack_chip mock_elapse 8 [0; 1; 2; 3; 4; 5; 6; 7; 8; 9; 10; 11; 12; 13; 14; 15] [0x0A; 0x0A]) = t1 ++ t2) \/
      (status r1 = MI_OK /\ backLen r1 = 4 /\
       Z.odd (hd 0 (backData r1)) = false /\
       exists crc2 d3 t3 r2 t4,
         calculateCRC ack_chip mock_elapse [0; 1; 2; 3; 4; 5; 6; 7; 8; 9; 10; 11; 12; 13; 14; 15] d2 = (Ok crc2, d3, t3) /\
         toCard ack_chip PCD_TRANSCEIVE ([0; 1; 2; 3; 4; 5; 6; 7; 8; 9; 10; 11; 12; 13; 14; 15] ++ crc2) d3 = (Ok r2, [], t4) /\
         snd (writeSector ack_chip mock_elapse 8 [0; 1; 2; 3; 4; 5; 6; 7; 8; 9; 10; 11; 12; 13; 14; 15] [0x0A; 0x0A]) = t1 ++ t2 ++ t3 ++ t4 /\
         (true = true <->
          status r2 = MI_OK /\ backLen r2 = 4 /\
          Z.land (hd 0 (backData r2)) 0x0F = 0x0A)))).
Proof.
  split; [vm_compute; reflexivity|].
  apply writeSector_two_phases. vm_compute; reflexivity.
Defined.

(** Sector 264 is asked for as sector 8. *)
Lemma readSector_frame_witness :
  readSector short_read_chip mock_elapse 264 [0x5A] = (Ok (Some [0x5A]), [], snd (readSector short_read_chip mock_elapse 264 [0x5A])) /\
  (exists lo hi,
     reads_of CRCRESULTL_REGISTER (snd (readSector short_read_chip mock_elapse 264 [0x5A])) = [lo] /\
     reads_of CRCRESULTM_REGISTER (snd (readSector short_read_chip mock_elapse 264 [0x5A])) = [hi] /\
     writes_of FIFODATA_REGISTER (snd (readSector short_read_chip mock_elapse 264 [0x5A]))
     = [PICC_READ; 264 mod 256; PICC_READ; 264 mod 256; lo; hi] /\
     writes_of COMMAND_REGISTER (snd (readSector short_read_chip mock_elapse 264 [0x5A]))
     = [PCD_IDLE; PCD_CALCCRC; PCD_IDLE; PCD_TRANSCEIVE]).
Proof.
  split; [vm_compute; reflexivity|].
  apply (readSector_frame _ _ short_read_chip mock_elapse 264 [0x5A]
           (Some [0x5A]) []).
  vm_compute; reflexivity.
Defined.

(** Both drivers already on: the register is written all the same. *)
Lemma antennaOn_always_writes_witness :
  antennaOn antenna_chip [] = (Ok tt, [], snd (antennaOn antenna_chip [])) /\
  (exists x,
     is_byte x /\
     snd (antennaOn antenna_chip []) = [EvRead TXCONTROL_REGISTER x;
                 EvWrite TXCONTROL_REGISTER (Z.lor x 0x03)]).
Proof.
  split; [vm_compute; reflexivity|].
  apply (antennaOn_always_writes _ _ antenna_chip [] tt []).
  vm_compute; reflexivity.
Defined.

(** A soft reset of the same chip. *)
Lemma resetPCD_log_witness :
  resetPCD antenna_chip [] = (Ok tt, [], snd (resetPCD antenna_chip [])) /\
  (exists x,
     is_byte x /\
     snd (resetPCD antenna_chip [])
     = [EvWrite COMMAND_REGISTER PCD_RESET;
        EvWrite TMODE_REGISTER 0x8D;
        EvWrite TPRESCALER_REGISTER 0x3E;
        EvWrite TRELOAD_LOW_REGISTER 30;
        EvWrite TRELOAD_HIGH_REGISTER 0;
        EvWrite TXASK_REGISTER 0x40;
        EvWrite MODE_REGISTER 0x3D;
        EvRead TXCONTROL_REGISTER x;
        EvWrite TXCONTROL_REGISTER (Z.lor x 0x03)]).
Proof.
  split; [vm_compute; reflexivity|].
  apply (resetPCD_log _ _ antenna_chip [] tt []).
  vm_compute; reflexivity.
Defined.

(** Five bytes print as ten digits. *)
Lemma uidToString_round_trip_witness :
  Forall is_byte [0x01; 0x02; 0xFF; 0x10; 0x00] /\
  (String.length (Examples.uidToString [0x01; 0x02; 0xFF; 0x10; 0x00]) = (2 * length [0x01; 0x02; 0xFF; 0x10; 0x00])%nat /\
   Examples.parse_uid (Examples.uidToString [0x01; 0x02; 0xFF; 0x10; 0x00]) = Some [0x01; 0x02; 0xFF; 0x10; 0x00] /\
   forall uid', Forall is_byte uid' ->
     Examples.uidToString uid' = Examples.uidToString [0x01; 0x02; 0xFF; 0x10; 0x00] -> uid' = [0x01; 0x02; 0xFF; 0x10; 0x00]).
Proof.
  assert (H : Forall is_byte [0x01; 0x02; 0xFF; 0x10; 0x00])
    by (repeat (apply Forall_cons; [unfold is_byte; lia|]); apply Forall_nil).
  split; [exact H|]. exact (uidToString_round_trip _ H).
Defined.

(** ** Time and traffic *)

Lemma waited_app t1 t2 : waited (t1 ++ t2) = waited t1 + waited t2.
Proof.
  induction t1 as [|e t1 IH]; [reflexivity|].
  destruct e; cbn [app waited]; lia.
Qed.

Lemma waited_map_read r l : waited (map (EvRead r) l) = 0.
Proof. induction l; cbn [map waited]; auto. Qed.

Lemma waited_map_write r (g : Z -> Z) l :
  waited (map (fun b => EvWrite r (g b)) l) = 0.
Proof. induction l; cbn [map waited]; auto. Qed.

Lemma crc_poll_log_size ns :
  waited (flat_map (fun v => [EvWait 5; EvRead DIVIRQ_REGISTER v]) ns)
  = 5 * Z.of_nat (length ns) /\
  length (flat_map (fun v => [EvWait 5; EvRead DIVIRQ_REGISTER v]) ns)
  = (2 * length ns)%nat.
Proof.
  induction ns as [|v ns [IH1 IH2]]; [split; reflexivity|].
  cbn [flat_map app waited length]. rewrite IH1, IH2. split; lia.
Qed.

Section TimeFacts.

Variable dev : Type.
Variable err : Type.
Variable spi_transfer : Z * Z -> dev -> (err + Z * Z) * dev.
Variable elapse : Z -> dev -> dev.

(** X20: a resolved [calculateCRC] spent 5 ms in [wait] for each poll of the
    divider IRQ register (the first read of that register aside), between
    5 ms and 1275 ms in all, and made at most [length buf + 518] bus
    transfers and waits. *)
Theorem calculateCRC_time_bound buf d crc d' t :
  calculateCRC spi_transfer elapse buf d = (Ok crc, d', t) ->
  waited t = 5 * (Z.of_nat (length (reads_of DIVIRQ_REGISTER t)) - 1) /\
  5 <= waited t <= 1275 /\
  (length t <= length buf + 518)%nat.
Proof.
  intros H.
  apply calculateCRC_log in H as (x & f & ns & lo & hi & _ & _ & _ & Hp & Ht).
  destruct (crc_polled_shape 255 ns ltac:(lia) Hp) as (Hlen & _).
  destruct (crc_poll_log_size ns) as [Hw Hl].
  subst t.
  rewrite !waited_app, !reads_of_app, !length_app, Hw, Hl.
  rewrite waited_map_write, reads_of_map_write, length_map.
  assert (Hr : reads_of DIVIRQ_REGISTER
                 (flat_map (fun v => [EvWait 5; EvRead DIVIRQ_REGISTER v]) ns) = ns).
  { clear. induction ns as [|v ns IH]; [reflexivity|].
    cbn [flat_map app reads_of]. now rewrite Z.eqb_refl, IH. }
  rewrite Hr.
  cbn [waited reads_of length app Z.eqb Pos.eqb DIVIRQ_REGISTER
       FIFOLEVEL_REGISTER CRCRESULTL_REGISTER CRCRESULTM_REGISTER].
  rewrite ?length_app. cbn [length].
  split; [lia|]. split; lia.
Qed.

(** X21: a resolved [toCard] never waits, and its whole traffic, reads and
    writes together, is at most [length data + 2030] bus transfers. *)
Theorem toCard_traffic_bound command data d r d' t :
  toCard spi_transfer command data d = (Ok r, d', t) ->
  waited t = 0 /\ (length t <= length data + 2030)%nat.
Proof.
  intros H.
  apply toCard_Ok in H as (q & f & bf & ns & n & i & x & tl & -> & Hbf & Hp & Ht).
  destruct (polled_shape _ _ _ _ _ Hp) as (Hi & Hlen & _).
  pose proof (irq_config_wait_range command) as Hw.
  assert (Hns : (length ns <= 2000)%nat).
  { destruct (polled_reason _ 2000 ns n i Hw ltac:(lia) Hp) as [[_ E]|[E _]]; lia. }
  assert (Hbf' : (length bf <= 1)%nat)
    by (destruct (command =? PCD_TRANSCEIVE); lia).
  assert (Htl : waited tl = 0 /\ (length tl <= 19)%nat).
  { inversion Ht as [Hi0 Hr|ev Hi0 Hev He Hr|ev Hi0 Hev He Hc Hr
                     |ev lvl c bd Hi0 Hev He Hc Hl Hc' Hb Hcount Hr];
      subst; cbn [waited length app]; try (split; [reflexivity|lia]).
    rewrite waited_map_read, length_map.
    pose proof (clamp_count_range lvl (proj1 Hl)). split; [reflexivity|lia]. }
  destruct Htl as [Htw Htn].
  unfold toCard_head.
  rewrite !waited_app, !length_app, waited_map_read, waited_map_write, Htw.
  rewrite !length_map.
  assert (Hstart : waited (flat_map (fun b => [EvRead BITFRAMING_REGISTER b;
                     EvWrite BITFRAMING_REGISTER (JS.uint8 (JS.lor b 0x80))]) bf) = 0
                   /\ length (flat_map (fun b => [EvRead BITFRAMING_REGISTER b;
                     EvWrite BITFRAMING_REGISTER (JS.uint8 (JS.lor b 0x80))]) bf)
                      = (2 * length bf)%nat).
  { clear. induction bf as [|b bf [IH1 IH2]]; [split; reflexivity|].
    cbn [flat_map app waited length]. rewrite IH1, IH2. split; lia. }
  destruct Hstart as [-> ->].
  cbn [waited length]. split; lia.
Qed.

End TimeFacts.

(** A CRC that completes at the first poll: one wait of 5 ms. *)
Lemma calculateCRC_time_bound_witness :
  calculateCRC ack_chip mock_elapse [PICC_READ; 8] []
    = (Ok [0; 0], [], snd (calculateCRC ack_chip mock_elapse [PICC_READ; 8] [])) /\
  (waited (snd (calculateCRC ack_chip mock_elapse [PICC_READ; 8] []))
   = 5 * (Z.of_nat (length (reads_of DIVIRQ_REGISTER
            (snd (calculateCRC ack_chip mock_elapse [PICC_READ; 8] [])))) - 1) /\
   5 <= waited (snd (calculateCRC ack_chip mock_elapse [PICC_READ; 8] [])) <= 1275 /\
   (length (snd (calculateCRC ack_chip mock_elapse [PICC_READ; 8%Z] []))
    <= length [PICC_READ; 8%Z] + 518)%nat).
Proof.
  split; [vm_compute; reflexivity|].
  apply (calculateCRC_time_bound _ _ ack_chip mock_elapse [PICC_READ; 8] []
           [0; 0] []).
  vm_compute; reflexivity.
Defined.

(** A transceive that uses up its 2000 polls. *)
Lemma toCard_traffic_bound_witness :
  toCard timer_chip PCD_TRANSCEIVE [PICC_REQIDL] []
    = (Ok (mkResult MI_ERR [] 0), [],
       snd (toCard timer_chip PCD_TRANSCEIVE [PICC_REQIDL] [])) /\
  (waited (snd (toCard timer_chip PCD_TRANSCEIVE [PICC_REQIDL] [])) = 0 /\
   (length (snd (toCard timer_chip PCD_TRANSCEIVE [PICC_REQIDL] []))
    <= length [PICC_REQIDL] + 2030)%nat).
Proof.
  split; [vm_compute; reflexivity|].
  apply (toCard_traffic_bound _ _ timer_chip PCD_TRANSCEIVE [PICC_REQIDL] []
           (mkResult MI_ERR [] 0) []).
  vm_compute; reflexivity.
Defined.
